(** * OnlineShop: dividing the bill of an online shop order

    A shallow embedding of [onlineshop/onlineshop.py] and the properties of
    its receipt parser, its total and its per-flatmate allocation.

    The script is Python 3 ([print] as a function, a receipt read in text
    mode): a receipt is a sequence of code points, the amounts are binary64
    floats, and the baskets are an insertion-ordered dictionary.  Character
    classes are given on the ASCII range, where the classes [\d], [\s] and
    [\w] of [re] on [str] patterns are the ones below; what is proved of
    the patterns and of the conversions is stated of plain texts, made of
    ASCII characters and pound signs ([plain]). *)

From Stdlib Require Import ZArith NArith List String Ascii Bool Lia Permutation.
From Stdlib Require Import Floats.SpecFloat DecimalString.
Import ListNotations.

Set Implicit Arguments.
Open Scope Z_scope.

(** ** Characters and strings *)

(** A character is a Unicode code point, a Python [str] a list of them. *)
Open Scope N_scope.

Definition char := N.
Definition pystr := list char.

Definition chr_eqb (a b : char) : bool := N.eqb a b.

Definition newline : char := 10.
Definition space : char := 32.

Definition in_range (lo hi c : char) : bool := (lo <=? c) && (c <=? hi).

(** [\d] *)
Definition is_digit (c : char) : bool := in_range 48 57 c.

(** [\s], which is also what [str.split] splits on: tab, line feed, vertical
    tab, form feed, carriage return, the four separators 0x1c-0x1f, space. *)
Definition is_space (c : char) : bool :=
  (in_range 9 13 c || in_range 28 31 c || chr_eqb c space)%bool.

(** [\w] *)
Definition is_word (c : char) : bool :=
  (in_range 97 122 c || in_range 65 90 c || is_digit c || chr_eqb c 95)%bool.

(** [.] without DOTALL: anything but a line feed. *)
Definition is_dot (c : char) : bool := negb (chr_eqb c newline).

(** [[\w\d ]] *)
Definition is_date_chr (c : char) : bool :=
  (is_word c || is_digit c || chr_eqb c space)%bool.

Definition lower (c : char) : char :=
  if in_range 65 90 c then c + 32 else c.

Fixpoint pystr_eqb (a b : pystr) : bool :=
  match a, b with
  | [], [] => true
  | x :: a', y :: b' => (chr_eqb x y && pystr_eqb a' b')%bool
  | _, _ => false
  end.

(** String literals of this file are written in UTF-8; [u] decodes the
    one- and two-byte sequences, which covers ASCII and the pound sign. *)
Fixpoint utf8 (bs : list N) : pystr :=
  match bs with
  | [] => []
  | b :: t =>
      if N.ltb b 192 then b :: utf8 t
      else match t with
           | [] => [b]
           | b2 :: t' =>
               N.lor (N.shiftl (N.land b 31) 6) (N.land b2 63) :: utf8 t'
           end
  end.

Definition u (s : string) : pystr :=
  utf8 (map N_of_ascii (list_ascii_of_string s)).

Close Scope N_scope.

(** ** Exceptions *)

(** The exceptions the script can raise.  [AttributeError] is what
    [None.group(1)] raises when a required field is not found (the
    missing-field error), [ValueError] what [strptime] and [float] raise on
    text of the wrong form (the format error). *)
Inductive exn : Set :=
| AttributeError
| ValueError
| ZeroDivisionError
| OverflowError
| KeyboardInterrupt.

Inductive result (A : Type) : Type :=
| Ok (a : A)
| Raise (e : exn).
Arguments Ok {A} a.
Arguments Raise {A} e.

Definition bind {A B : Type} (m : result A) (k : A -> result B) : result B :=
  match m with
  | Ok a => k a
  | Raise e => Raise e
  end.

Notation "x <- m ;; k" := (bind m (fun x => k))
  (at level 61, m at next level, right associativity).

Fixpoint mapM {A B : Type} (f : A -> result B) (l : list A) : result (list B) :=
  match l with
  | [] => Ok []
  | a :: l' => b <- f a ;; bs <- mapM f l' ;; Ok (b :: bs)
  end.

(** ** Floats *)

(** Python's [float] is IEEE 754 binary64, with rounding to nearest even. *)
Definition prec : Z := 53.
Definition emax : Z := 1024.
Definition float := spec_float.

Definition fadd : float -> float -> float := SFadd prec emax.
Definition fdiv : float -> float -> float := SFdiv prec emax.
Definition fopp : float -> float := SFopp.

(** The float nearest to an integer. *)
Definition float_of_Z (z : Z) : float := binary_normalize prec emax z 0 false.

(** [x == 0] and the falsity of [x]: both zeros, and nothing else. *)
Definition is_zero (x : float) : bool :=
  match x with
  | S754_zero _ => true
  | _ => false
  end.

(** [float(n)] for an [int]: out of range is an [OverflowError]. *)
Definition float_of_int (n : Z) : result float :=
  match float_of_Z n with
  | S754_infinity _ => Raise OverflowError
  | x => Ok x
  end.

(** The float of a decimal literal with two decimals, [n] being its value
    in hundredths: [cents 450] is [4.50].  [n] and [100] are floats, so
    their quotient is the correctly rounded [n/100], as [float("4.50")]. *)
Definition cents (n : Z) : float := fdiv (float_of_Z n) (float_of_Z 100).

(** [sum(l)]: the builtin starts from [0] and adds from left to right. *)
Definition sum (l : list float) : float := fold_left fadd l (float_of_Z 0).

(** ** Regular expressions *)

(** The constructs of [re] that the script uses, and those that
    [strptime] compiles its format to.  Repetition is on a character
    class, as in the patterns. *)
Inductive regex : Type :=
| Chr (p : char -> bool)          (* one character of a class *)
| Lit (ci : bool) (w : pystr)     (* a literal; [ci]: IGNORECASE *)
| Bol                             (* [^] under MULTILINE *)
| Eol                             (* [$] under MULTILINE *)
| Cat (r1 r2 : regex)
| Alt (r1 r2 : regex)
| Opt (r : regex)                 (* [r?] *)
| Plus (p : char -> bool)         (* [p+] *)
| PlusLazy (p : char -> bool)     (* [p+?] *)
| Group (r : regex).              (* [(r)] *)

Infix "+++" := Cat (at level 60, right associativity).

(** One way of matching at a position: what was consumed, what is left,
    and the text of the groups in the order of their opening bracket. *)
Record hit : Type := Hit {
  taken : pystr;
  rest : pystr;
  groups : list pystr
}.

Definition at_bol (prev : option char) : bool :=
  match prev with
  | None => true
  | Some c => chr_eqb c newline
  end.

Definition at_eol (s : pystr) : bool :=
  match s with
  | [] => true
  | c :: _ => chr_eqb c newline
  end.

(** The character before the position reached after consuming [w]. *)
Definition last_chr (w : pystr) (prev : option char) : option char :=
  last (map (@Some char) w) prev.

(** The non-empty prefixes of [s] made of characters of [p], shortest first. *)
Fixpoint runs (p : char -> bool) (s : pystr) : list (pystr * pystr) :=
  match s with
  | [] => []
  | c :: s' =>
      if p c
      then ([c], s') :: map (fun '(a, b) => (c :: a, b)) (runs p s')
      else []
  end.

(** [w] read off the front of [s]. *)
Fixpoint strip (ci : bool) (w s : pystr) : option pystr :=
  match w, s with
  | [], _ => Some s
  | _ :: _, [] => None
  | a :: w', c :: s' =>
      if (if ci then chr_eqb (lower a) (lower c) else chr_eqb a c)
      then strip ci w' s' else None
  end.

Definition hit_of_run (ab : pystr * pystr) : hit := Hit (fst ab) (snd ab) [].

(** All the ways in which [r] matches at the front of [s], in the order in
    which the backtracking matcher tries them: its answer is the first. *)
Fixpoint matches (r : regex) (prev : option char) (s : pystr) : list hit :=
  match r with
  | Chr p =>
      match s with
      | c :: s' => if p c then [Hit [c] s' []] else []
      | [] => []
      end
  | Lit ci w =>
      match strip ci w s with
      | Some s' => [Hit (firstn (List.length w) s) s' []]
      | None => []
      end
  | Bol => if at_bol prev then [Hit [] s []] else []
  | Eol => if at_eol s then [Hit [] s []] else []
  | Cat r1 r2 =>
      flat_map (fun h1 =>
        map (fun h2 => Hit (taken h1 ++ taken h2) (rest h2)
                           (groups h1 ++ groups h2))
            (matches r2 (last_chr (taken h1) prev) (rest h1)))
        (matches r1 prev s)
  | Alt r1 r2 => matches r1 prev s ++ matches r2 prev s
  | Opt r1 => matches r1 prev s ++ [Hit [] s []]
  | Plus p => rev (map hit_of_run (runs p s))
  | PlusLazy p => map hit_of_run (runs p s)
  | Group r1 =>
      map (fun h => Hit (taken h) (rest h) (taken h :: groups h))
          (matches r1 prev s)
  end.

(** [re.search]: the first match at the leftmost position that has one. *)
Fixpoint search_from (r : regex) (prev : option char) (s : pystr) : option hit :=
  match matches r prev s with
  | h :: _ => Some h
  | [] =>
      match s with
      | c :: s' => search_from r (Some c) s'
      | [] => None
      end
  end.

Definition search (r : regex) (s : pystr) : option hit := search_from r None s.

(** [re.findall]: the groups of the successive non-overlapping matches.
    After a match the scan resumes where the match ended: [skip] counts the
    characters of the last match still to be passed over. *)
Fixpoint scan (r : regex) (prev : option char) (s : pystr) (skip : nat)
  : list (list pystr) :=
  match skip, s with
  | S k, c :: s' => scan r (Some c) s' k
  | S _, [] => []
  | O, _ =>
      match matches r prev s with
      | h :: _ =>
          groups h ::
          match s with
          | c :: s' => scan r (Some c) s' (Nat.pred (List.length (taken h)))
          | [] => []
          end
      | [] =>
          match s with
          | c :: s' => scan r (Some c) s' O
          | [] => []
          end
      end
  end.

Definition findall (r : regex) (s : pystr) : list (list pystr) := scan r None s O.

(** ** The patterns of [parse_receipt] *)

Definition digit : regex := Chr is_digit.

(** [\d\d?\.\d\d] *)
Definition amount_re : regex :=
  digit +++ Opt digit +++ Lit false (u ".") +++ digit +++ digit.

(** [(^\d\d?) (.+?) £(\d\d?\.\d\d)] *)
Definition purchase_re : regex :=
  Group (Bol +++ digit +++ Opt digit) +++ Lit false (u " ") +++
  Group (PlusLazy is_dot) +++ Lit false (u " £") +++ Group amount_re.

(** [Delivery date\s([\w\d ]+)] *)
Definition delivery_date_re : regex :=
  Lit false (u "Delivery date") +++ Chr is_space +++ Group (Plus is_date_chr).

(** [Delivery\s.(\d\d?\.\d\d)] *)
Definition delivery_cost_re : regex :=
  Lit false (u "Delivery") +++ Chr is_space +++ Chr is_dot +++
  Group amount_re.

(** [Voucher Saving\s.(-?\d\d?.\d\d)]: the dot between the digits is not
    escaped, it stands for any character. *)
Definition voucher_re : regex :=
  Lit false (u "Voucher Saving") +++ Chr is_space +++ Chr is_dot +++
  Group (Opt (Lit false (u "-")) +++ digit +++ Opt digit +++ Chr is_dot +++
         digit +++ digit).

(** ** Conversions *)

Definition digit_val (c : char) : Z := Z.of_N c - 48.

(** The value of a string of decimal digits, after the digits [acc]. *)
Fixpoint digits_val (acc : Z) (s : pystr) : option Z :=
  match s with
  | [] => Some acc
  | c :: s' =>
      if is_digit c then digits_val (10 * acc + digit_val c) s' else None
  end.

Definition number (s : pystr) : option Z :=
  match s with
  | [] => None
  | _ :: _ => digits_val 0 s
  end.

(** [int(s)] on the text of the quantity group, a string of digits. *)
Definition py_int (s : pystr) : result Z :=
  match number s with
  | Some n => Ok n
  | None => Raise ValueError
  end.

(** [float(s)] on the text of an amount group: an optional minus sign,
    digits, one character and two digits.  With a point in the middle it is
    a decimal with two decimals; the voucher pattern lets any character
    stand there, and [float] then reads an integer when it is a digit or an
    underscore, a power of ten when it is [e] or [E], and fails otherwise.
    All of these are correctly rounded. *)
Definition py_float (s : pystr) : result float :=
  let '(neg, body) :=
    match s with
    | c :: t => if chr_eqb c 45%N then (true, t) else (false, s)
    | [] => (false, s)
    end in
  let n := (List.length body - 3)%nat in
  match number (firstn n body), skipn n body with
  | Some a, [sep; d1; d2] =>
      match number [d1; d2] with
      | Some b =>
          let signed (x : float) := if neg then fopp x else x in
          if chr_eqb sep 46%N then Ok (signed (cents (100 * a + b)))
          else if is_digit sep
               then Ok (signed (float_of_Z ((10 * a + digit_val sep) * 100 + b)))
          else if chr_eqb sep 95%N then Ok (signed (float_of_Z (100 * a + b)))
          else if chr_eqb (lower sep) 101%N
               then Ok (signed (float_of_Z (a * 10 ^ b)))
          else Raise ValueError
      | None => Raise ValueError
      end
  | _, _ => Raise ValueError
  end.

(** *** [datetime.strptime(s, '%A %d %B')] *)

(** The value [strptime] builds when the format has no year: 1900. *)
Record datetime : Set := Datetime {
  year : Z;
  month : Z;
  day : Z
}.

Definition weekdays : list string :=
  ["wednesday"; "thursday"; "saturday"; "tuesday"; "monday"; "friday";
   "sunday"]%string.

Definition months : list string :=
  ["january"; "february"; "march"; "april"; "may"; "june"; "july";
   "august"; "september"; "october"; "november"; "december"]%string.

(** The names as [strptime] tries them, the longest first. *)
Definition months_by_length : list string :=
  ["september"; "february"; "november"; "december"; "january"; "october";
   "august"; "march"; "april"; "june"; "july"; "may"]%string.

(** An alternation of names, matched without regard to case. *)
Fixpoint one_of (names : list string) : regex :=
  match names with
  | [] => Chr (fun _ => false)
  | [n] => Lit true (u n)
  | n :: ns => Alt (Lit true (u n)) (one_of ns)
  end.

Definition chr_in (lo hi : N) : regex := Chr (in_range lo hi).

(** [3[0-1]|[1-2]\d|0[1-9]|[1-9]| [1-9]] *)
Definition day_re : regex :=
  Alt (chr_in 51 51 +++ chr_in 48 49)
 (Alt (chr_in 49 50 +++ digit)
 (Alt (chr_in 48 48 +++ chr_in 49 57)
 (Alt (chr_in 49 57)
      (Chr (chr_eqb space) +++ chr_in 49 57)))).

(** The pattern of the format ['%A %d %B'] in the C locale; a blank of the
    format stands for [\s+]. *)
Definition format_re : regex :=
  Group (one_of weekdays) +++ Plus is_space +++
  Group day_re +++ Plus is_space +++
  Group (one_of months_by_length).

Fixpoint index_of (w : pystr) (names : list string) (i : Z) : option Z :=
  match names with
  | [] => None
  | n :: ns => if pystr_eqb w (u n) then Some i else index_of w ns (i + 1)
  end.

(** The number of days of a month of 1900, which is not a leap year. *)
Definition days_in_month (m : Z) : Z :=
  if m =? 2 then 28
  else if (m =? 4) || (m =? 6) || (m =? 9) || (m =? 11) then 30
  else 31.

Definition skip_space (s : pystr) : pystr :=
  match s with
  | c :: t => if chr_eqb c space then t else s
  | [] => s
  end.

(** The first match of the format has to cover the whole string, and the
    day has to exist in that month. *)
Definition strptime (s : pystr) : result datetime :=
  match matches format_re None s with
  | Hit _ [] [_; d; b] :: _ =>
      match number (skip_space d), index_of (map lower b) months 1 with
      | Some dd, Some mm =>
          if dd <=? days_in_month mm then Ok (Datetime 1900 mm dd)
          else Raise ValueError
      | _, _ => Raise ValueError
      end
  | _ => Raise ValueError
  end.

(** ** The receipt *)

Record Purchase : Type := mkPurchase {
  description : pystr;
  price : float;
  quantity : Z
}.

Record order_info : Type := OrderInfo {
  delivery_date : datetime;
  total : float
}.

(** [m.group(1)] on the result of a search. *)
Definition group1 (m : option hit) : result pystr :=
  match m with
  | None => Raise AttributeError
  | Some h => Ok (nth 0 (groups h) [])
  end.

(** Lines 46 to 49, 51 to 52 and 54 to 55: the three fields. *)
Definition delivery_date_of (ifile : pystr) : result datetime :=
  s <- group1 (search delivery_date_re ifile) ;; strptime s.

Definition delivery_cost_of (ifile : pystr) : result float :=
  s <- group1 (search delivery_cost_re ifile) ;; py_float s.

Definition voucher_of (ifile : pystr) : result float :=
  s <- group1 (search voucher_re ifile) ;; py_float s.

(** [Purchase(description, float(price), int(quantity))] for one match. *)
Definition to_purchase (g : list pystr) : result Purchase :=
  match g with
  | [quantity; description; price] =>
      p <- py_float price ;;
      q <- py_int quantity ;;
      Ok (mkPurchase description p q)
  | _ => Raise ValueError
  end.

Definition delivery_item (cost : float) : Purchase :=
  mkPurchase (u "Delivery costs") cost 1.

Definition voucher_item (voucher : float) : Purchase :=
  mkPurchase (u "Voucher savings") voucher 1.

(** Lines 60 to 62: the delivery costs are appended, and the voucher when
    it is not zero. *)
Definition with_extras (purchases : list Purchase) (delivery_cost voucher : float)
  : list Purchase :=
  let purchases := purchases ++ [delivery_item delivery_cost] in
  if is_zero voucher then purchases
  else purchases ++ [voucher_item voucher].

(** Lines 64 to 65: the total of the order. *)
Definition reconcile (purchases : list Purchase) (voucher delivery_cost : float)
  : float :=
  let subtotal := sum (map price purchases) in
  fadd (fadd subtotal voucher) delivery_cost.

(** [parse_receipt], on the text read from the file. *)
Definition parse_receipt (ifile : pystr) : result (order_info * list Purchase) :=
  let found := findall purchase_re ifile in
  date <- delivery_date_of ifile ;;
  delivery_cost <- delivery_cost_of ifile ;;
  voucher <- voucher_of ifile ;;
  purchases <- mapM to_purchase found ;;
  let purchases := with_extras purchases delivery_cost voucher in
  Ok (OrderInfo date (reconcile purchases voucher delivery_cost), purchases).

(** ** Baskets *)

(** A dictionary keyed by strings keeps its keys in the order of their
    first insertion, which is the order in which [items()] yields them. *)
Definition dict (V : Type) : Type := list (pystr * V).

Fixpoint get {V : Type} (d : dict V) (k : pystr) : option V :=
  match d with
  | [] => None
  | (k', v) :: d' => if pystr_eqb k' k then Some v else get d' k
  end.

(** [d[k] = v] *)
Fixpoint set {V : Type} (d : dict V) (k : pystr) (v : V) : dict V :=
  match d with
  | [] => [(k, v)]
  | (k', v') :: d' =>
      if pystr_eqb k' k then (k', v) :: d' else (k', v') :: set d' k v
  end.

(** Lines 123 to 126: one share more for a flatmate. *)
Definition record (baskets : dict (list float)) (flatmate : pystr)
    (cost_each : float) : dict (list float) :=
  match get baskets flatmate with
  | None => set baskets flatmate [cost_each]
  | Some shares => set baskets flatmate (shares ++ [cost_each])
  end.

(** [divide_order_bill] *)
Definition divide_order_bill (baskets : dict (list float)) : dict float :=
  map (fun '(flatmate, purchases) => (flatmate, sum purchases)) baskets.

(** [s.split()]: the maximal runs of characters that are not blank.
    [word] is the run being read, backwards. *)
Fixpoint split_from (word s : pystr) : list pystr :=
  let flush := match word with [] => [] | _ :: _ => [rev word] end in
  match s with
  | [] => flush
  | c :: s' =>
      if is_space c then flush ++ split_from [] s'
      else split_from (c :: word) s'
  end.

Definition split (s : pystr) : list pystr := split_from [] s.

(** ** Output *)

Definition decimal (n : Z) : pystr :=
  map N_of_ascii
      (list_ascii_of_string (NilZero.string_of_uint (N.to_uint (Z.to_N n)))).

(** The integer nearest to [n / d], the even one on a tie. *)
Definition div_nearest_even (n d : Z) : Z :=
  let q := n / d in
  let r := n mod d in
  match 2 * r ?= d with
  | Lt => q
  | Gt => q + 1
  | Eq => if Z.even q then q else q + 1
  end.

Definition minus_sign (s : bool) : pystr := if s then u "-" else [].

(** ['{:.2f}'.format(x)]: the exact value of the float, rounded to the
    nearest hundredth. *)
Definition format_2f (x : float) : pystr :=
  match x with
  | S754_nan => u "nan"
  | S754_infinity s => minus_sign s ++ u "inf"
  | S754_zero s => minus_sign s ++ u "0.00"
  | S754_finite s m e =>
      let h :=
        if 0 <=? e then Zpos m * 100 * 2 ^ e
        else div_nearest_even (Zpos m * 100) (2 ^ (- e)) in
      let frac := decimal (h mod 100) in
      minus_sign s ++ decimal (h / 100) ++ u "." ++
      (if h mod 100 <? 10 then u "0" else []) ++ frac
  end.

(** Line 130: one line of the report. *)
Definition spent_line (entry : pystr * float) : pystr :=
  fst entry ++ u " spent £" ++ format_2f (snd entry).

(** Lines 129 to 130. *)
Definition report (baskets : dict (list float)) : list pystr :=
  map spent_line (divide_order_bill baskets).

(** Lines 111 to 112. *)
Definition heading : list pystr :=
  [newline :: u "Enter flatmate identifier(s) (either a name, initial(s) or number that you keep to later.";
   u "Seperate the identifiers by a space." ++ [newline]].

(** ** The assignment of the purchases *)

(** Line 119: the cost of one unit.  A quantity of zero is a division by
    zero, which Python refuses. *)
Definition unit_cost (purchase : Purchase) : result float :=
  q <- float_of_int (quantity purchase) ;;
  if is_zero q then Raise ZeroDivisionError
  else Ok (fdiv (price purchase) q).

(** What the loop of [main] has built so far: the baskets, and the
    purchases it has asked about. *)
Record progress : Type := Progress {
  baskets : dict (list float);
  asked : list Purchase
}.

Definition start : progress := Progress [] [].

(** What [main] leaves behind: the lines it printed, the exception that
    ends it if there is one, and whether the cursor was closed. *)
Record outcome : Type := Outcome {
  stdout : list pystr;
  raised : option exn;
  cursor_closed : bool
}.

Section Assignment.

(** [helper.ask] is not part of the sources: it is a parameter, the
    answer typed at the prompt number [n] for a purchase, or the
    exception raised there ([KeyboardInterrupt] when the user cancels). *)
Variable ask : nat -> Purchase -> result pystr.

(** [assign_purchase], at the prompt number [n]. *)
Definition assign_purchase (n : nat) (purchase : Purchase) : result (list pystr) :=
  purchasers <- ask n purchase ;; Ok (split purchasers).

(** Lines 116 to 126: the body of the loop. *)
Definition assign_step (st : progress) (purchase : Purchase) : result progress :=
  if is_zero (price purchase) then Ok st
  else
    cost_each <- unit_cost purchase ;;
    purchasers <- assign_purchase (List.length (asked st)) purchase ;;
    Ok (Progress
          (fold_left (fun b flatmate => record b flatmate cost_each)
                     purchasers (baskets st))
          (asked st ++ [purchase])).

(** Lines 114 to 126: the loop.  When its body raises, the loop is left
    with what it had built. *)
Fixpoint assign_all (st : progress) (purchases : list Purchase)
  : progress * option exn :=
  match purchases with
  | [] => (st, None)
  | purchase :: purchases' =>
      match assign_step st purchase with
      | Ok st' => assign_all st' purchases'
      | Raise e => (st, Some e)
      end
  end.

(** [main], on the text of the receipt.  The report is printed inside
    the [try] block, after the loop; [KeyboardInterrupt] is caught and
    dropped, any other exception goes on after the cursor is closed. *)
Definition main (ifile : pystr) : outcome :=
  match parse_receipt ifile with
  | Raise e => Outcome [] (Some e) false
  | Ok (_, purchases) =>
      match assign_all start purchases with
      | (st, None) => Outcome (heading ++ report (baskets st)) None true
      | (_, Some KeyboardInterrupt) => Outcome heading None true
      | (_, Some e) => Outcome heading (Some e) true
      end
  end.

End Assignment.

(** The answers of a session, in the order of the prompts; an empty line
    once they are used up. *)
Definition answers (l : list (result pystr)) : nat -> Purchase -> result pystr :=
  fun n _ => nth n l (Ok []).

(** ** Lines *)

(** The lines of a text, cut at the line feeds. *)
Fixpoint lines (s : pystr) : list pystr :=
  match s with
  | [] => [[]]
  | c :: s' =>
      if chr_eqb c newline then [] :: lines s'
      else match lines s' with
           | l :: ls => (c :: l) :: ls
           | [] => [[c]]
           end
  end.

(** The text made of some lines, a line feed after each. *)
Definition unlines (ls : list pystr) : pystr :=
  flat_map (fun l => l ++ [newline]) ls.

(** What a pattern finds on one line taken alone: its first match from
    the first character, if there is one. *)
Definition on_line (r : regex) (l : pystr) : list (list pystr) :=
  match matches r None l with
  | h :: _ => [groups h]
  | [] => []
  end.

Definition line_purchase (l : pystr) : list (list pystr) :=
  on_line purchase_re l.

(** A pattern that looks at nothing beyond a line feed: its classes and
    literals have none. *)
Fixpoint nl_safe (r : regex) : bool :=
  match r with
  | Chr p | Plus p | PlusLazy p => negb (p newline)
  | Lit _ w => forallb is_dot w
  | Bol | Eol => true
  | Cat r1 r2 | Alt r1 r2 => nl_safe r1 && nl_safe r2
  | Opt r1 | Group r1 => nl_safe r1
  end.

(** A match on a text followed by [x]. *)
Definition extend (x : pystr) (h : hit) : hit :=
  Hit (taken h) (rest h ++ x) (groups h).

(** The texts of a quantity, [\d\d?], and of an amount, [\d\d?\.\d\d]. *)
Definition is_quantity (q : pystr) : bool :=
  match q with
  | [a] => is_digit a
  | [a; b] => is_digit a && is_digit b
  | _ => false
  end.

Definition is_amount (p : pystr) : bool :=
  match p with
  | [a; pt; c; d] =>
      is_digit a && chr_eqb pt 46%N && is_digit c && is_digit d
  | [a; b; pt; c; d] =>
      is_digit a && is_digit b && chr_eqb pt 46%N && is_digit c && is_digit d
  | _ => false
  end.

(** *** The line items as the specification words them *)






(** ** Sequences of [record] calls *)

Definition record_all (baskets : dict (list float))
    (calls : list (pystr * float)) : dict (list float) :=
  fold_left (fun b call => record b (fst call) (snd call)) calls baskets.

(** The shares of one flatmate among some calls, in their order. *)
Definition shares_of (flatmate : pystr) (calls : list (pystr * float))
  : list float :=
  map snd (filter (fun call => pystr_eqb (fst call) flatmate) calls).

(** The shares of a flatmate after some more of them. *)
Definition more_shares (old : option (list float)) (new : list float)
  : option (list float) :=
  match new with
  | [] => old
  | _ :: _ => Some (match old with Some l => l | None => [] end ++ new)
  end.

(** ** Receipts used as examples *)

(** The order of section 8 of the specification. *)
Definition receipt : pystr :=
  unlines [u "2 Bananas £1.00";
           u "1 Bread £2.00";
           u "Delivery date Monday 12 January";
           u "Delivery £3.00";
           u "Voucher Saving £-1.00"].


(** An order of three purchases to assign, the voucher being zero. *)
Definition receipt_zero_voucher : pystr :=
  unlines [u "2 Bananas £1.00";
           u "1 Bread £2.00";
           u "Delivery date Monday 12 January";
           u "Delivery £3.00";
           u "Voucher Saving £0.00"].


(** A line whose quantity is zero. *)
Definition receipt_zero_quantity : pystr :=
  unlines [u "0 Carrier bags £0.40";
           u "Delivery date Monday 12 January";
           u "Delivery £3.00";
           u "Voucher Saving £0.00"].



(** The sessions of the examples. *)
Definition full_session : nat -> Purchase -> result pystr :=
  answers [Ok (u "Alice Bob"); Ok (u "Alice"); Ok (u "Alice Bob");
           Ok (u "Alice Bob")].

Definition cancelled_session : nat -> Purchase -> result pystr :=
  answers [Ok (u "Alice Bob"); Raise KeyboardInterrupt].


Definition bananas : Purchase := mkPurchase (u "Bananas") (cents 100) 2.
Definition bread : Purchase := mkPurchase (u "Bread") (cents 200) 1.
Definition free_sample : Purchase := mkPurchase (u "Free sample") (cents 0) 3.

Definition calls_ab : list (pystr * float) :=
  [(u "Alice", cents 50); (u "Bob", cents 200); (u "Alice", cents 300)].

Definition calls_ba : list (pystr * float) :=
  [(u "Bob", cents 200); (u "Alice", cents 50); (u "Alice", cents 300)].

(** ** Equality, invariants and further examples *)



Definition pystr_dec : forall a b : pystr, {a = b} + {a <> b} :=
  list_eq_dec N.eq_dec.

(** A session in which nobody is named for the first purchase. *)
Definition blank_session : nat -> Purchase -> result pystr :=
  answers [Ok (u "  "); Ok (u "Alice")].

(** A purchase of no unit. *)
Definition carrier_bags : Purchase := mkPurchase (u "Carrier bags") (cents 40) 0.

(** Baskets as the loop keeps them: one entry for a flatmate, and no
    entry without a share. *)
Definition tidy (b : dict (list float)) : Prop :=
  NoDup (map fst b) /\ forall f l, In (f, l) b -> l <> [].


(** The purchases that cost something. *)
Definition costs_something (p : Purchase) : bool := negb (is_zero (price p)).

Definition float_eq_dec (x y : float) : {x = y} + {x <> y}.
Proof.
  decide equality; try apply Bool.bool_dec;
    try apply Z.eq_dec; apply Pos.eq_dec.
Defined.

(** * Properties *)

(** ** Strings and dictionaries *)

Lemma chr_eqb_eq (a b : char) : chr_eqb a b = true <-> a = b.
Proof. apply N.eqb_eq. Qed.

Lemma pystr_eqb_eq (a b : pystr) : pystr_eqb a b = true <-> a = b.
Proof.
  revert b; induction a as [|x a IH]; intros [|y b]; simpl;
    try (split; [discriminate | discriminate]); try tauto.
  rewrite andb_true_iff, chr_eqb_eq, IH.
  split; [intros [-> ->]; reflexivity | intros H; inversion H; auto].
Qed.

Lemma pystr_eqb_refl (a : pystr) : pystr_eqb a a = true.
Proof. apply pystr_eqb_eq; reflexivity. Qed.

Lemma pystr_eqb_sym (a b : pystr) : pystr_eqb a b = pystr_eqb b a.
Proof.
  destruct (pystr_eqb a b) eqn:E.
  - apply pystr_eqb_eq in E; subst; symmetry; apply pystr_eqb_refl.
  - destruct (pystr_eqb b a) eqn:E'; [|reflexivity].
    apply pystr_eqb_eq in E'; subst; rewrite pystr_eqb_refl in E; discriminate.
Qed.

Section Dict.

Variable V : Type.
Implicit Types (d : dict V) (k : pystr) (v : V).

Lemma get_set d k v k' :
  get (set d k v) k' = if pystr_eqb k k' then Some v else get d k'.
Proof.
  induction d as [|[k0 v0] d IH]; simpl.
  - reflexivity.
  - destruct (pystr_eqb k0 k) eqn:E; simpl.
    + apply pystr_eqb_eq in E; subst k0.
      destruct (pystr_eqb k k'); reflexivity.
    + rewrite IH. destruct (pystr_eqb k0 k') eqn:E'; [|reflexivity].
      apply pystr_eqb_eq in E'; subst k0.
      rewrite pystr_eqb_sym, E; reflexivity.
Qed.


End Dict.

Lemma get_record baskets flatmate cost_each k :
  get (record baskets flatmate cost_each) k =
  if pystr_eqb flatmate k then more_shares (get baskets flatmate) [cost_each]
  else get baskets k.
Proof.
  unfold record. destruct (get baskets flatmate); rewrite get_set; reflexivity.
Qed.

Lemma more_shares_app old new1 new2 :
  more_shares (more_shares old new1) new2 = more_shares old (new1 ++ new2).
Proof.
  destruct new1 as [|a new1]; simpl; [reflexivity|].
  destruct new2 as [|b new2]; simpl.
  - rewrite app_nil_r; reflexivity.
  - rewrite <- app_assoc; reflexivity.
Qed.

Lemma get_record_all calls baskets k :
  get (record_all baskets calls) k =
  more_shares (get baskets k) (shares_of k calls).
Proof.
  unfold record_all, shares_of.
  revert baskets; induction calls as [|[f c] calls IH]; intros b; simpl.
  - reflexivity.
  - rewrite IH, get_record.
    destruct (pystr_eqb f k) eqn:E; simpl; [|reflexivity].
    apply pystr_eqb_eq in E; subst f.
    apply (more_shares_app (get b k) [c]).
Qed.

Lemma get_divide_order_bill baskets k :
  get (divide_order_bill baskets) k = option_map sum (get baskets k).
Proof.
  induction baskets as [|[f l] b IH]; simpl; [reflexivity|].
  destruct (pystr_eqb f k); [reflexivity | exact IH].
Qed.

Lemma float_of_int_Ok n q : float_of_int n = Ok q -> q = float_of_Z n.
Proof.
  unfold float_of_int. destruct (float_of_Z n); intros H; inversion H; reflexivity.
Qed.

Lemma unit_cost_Ok purchase share :
  unit_cost purchase = Ok share ->
  share = fdiv (price purchase) (float_of_Z (quantity purchase)).
Proof.
  unfold unit_cost, bind.
  destruct (float_of_int (quantity purchase)) as [q|e] eqn:E; [|discriminate].
  apply float_of_int_Ok in E; subst q.
  destruct (is_zero _); intros H; inversion H; reflexivity.
Qed.


Lemma shares_of_same share flatmate names :
  shares_of flatmate (map (fun f => (f, share)) names) =
  repeat share (List.length (filter (fun f => pystr_eqb f flatmate) names)).
Proof.
  unfold shares_of. induction names as [|n names IH]; simpl; [reflexivity|].
  destruct (pystr_eqb n flatmate); simpl; rewrite IH; reflexivity.
Qed.

Lemma fold_record_all share names baskets :
  fold_left (fun b flatmate => record b flatmate share) names baskets =
  record_all baskets (map (fun f => (f, share)) names).
Proof.
  unfold record_all. revert baskets.
  induction names as [|n names IH]; intros; simpl; [reflexivity | apply IH].
Qed.

Section AssignmentProperties.

Variable ask : nat -> Purchase -> result pystr.

Lemma assign_step_zero st purchase :
  is_zero (price purchase) = true -> assign_step ask st purchase = Ok st.
Proof. unfold assign_step; intros ->; reflexivity. Qed.

Lemma assign_all_skip purchase :
  is_zero (price purchase) = true ->
  forall before after st,
    assign_all ask st (before ++ purchase :: after) =
    assign_all ask st (before ++ after).
Proof.
  intros Hz before after.
  induction before as [|p before IH]; intros st; simpl.
  - rewrite (assign_step_zero st purchase Hz); reflexivity.
  - destruct (assign_step ask st p); [apply IH | reflexivity].
Qed.

Lemma main_unfold ifile info purchases st exc :
  parse_receipt ifile = Ok (info, purchases) ->
  assign_all ask start purchases = (st, exc) ->
  main ask ifile =
  match exc with
  | None => Outcome (heading ++ report (baskets st)) None true
  | Some KeyboardInterrupt => Outcome heading None true
  | Some e => Outcome heading (Some e) true
  end.
Proof. unfold main; intros -> ->; reflexivity. Qed.

End AssignmentProperties.

(** ** Parsing, step by step *)

Lemma parse_receipt_Ok ifile info purchases :
  parse_receipt ifile = Ok (info, purchases) ->
  exists date delivery_cost voucher bought,
    delivery_date_of ifile = Ok date /\
    delivery_cost_of ifile = Ok delivery_cost /\
    voucher_of ifile = Ok voucher /\
    mapM to_purchase (findall purchase_re ifile) = Ok bought /\
    purchases = with_extras bought delivery_cost voucher /\
    info = OrderInfo date (reconcile purchases voucher delivery_cost).
Proof.
  unfold parse_receipt, bind.
  destruct (delivery_date_of ifile) as [date|]; [|discriminate].
  destruct (delivery_cost_of ifile) as [dc|]; [|discriminate].
  destruct (voucher_of ifile) as [v|]; [|discriminate].
  destruct (mapM to_purchase _) as [bought|]; [|discriminate].
  intros H; inversion H; subst.
  exists date, dc, v, bought; repeat split; reflexivity.
Qed.

Section Interrupts.

Variable ask : nat -> Purchase -> result pystr.

Lemma assign_step_interrupt st purchase :
  assign_step ask st purchase = Raise KeyboardInterrupt ->
  ask (List.length (asked st)) purchase = Raise KeyboardInterrupt.
Proof.
  unfold assign_step, assign_purchase, unit_cost, float_of_int, bind.
  destruct (is_zero (price purchase)); [discriminate|].
  destruct (float_of_Z (quantity purchase)); simpl;
    try discriminate;
    destruct (ask _ purchase); simpl; congruence.
Qed.

Lemma assign_all_interrupt purchases st0 st :
  assign_all ask st0 purchases = (st, Some KeyboardInterrupt) ->
  exists purchase, In purchase purchases /\
    ask (List.length (asked st)) purchase = Raise KeyboardInterrupt.
Proof.
  revert st0; induction purchases as [|p ps IH]; intros st0; simpl.
  - discriminate.
  - destruct (assign_step ask st0 p) as [st1|e] eqn:E.
    + intros H. destruct (IH _ H) as [q [Hin Hq]]. exists q; auto.
    + intros H; inversion H; subst. exists p; split; [auto|].
      apply assign_step_interrupt; exact E.
Qed.

End Interrupts.

(** ** The matcher *)

Lemma flat_map_map {A B C : Type} (f : A -> B) (g : B -> list C) (l : list A) :
  flat_map g (map f l) = flat_map (fun a => g (f a)) l.
Proof. induction l; simpl; [reflexivity | rewrite IHl; reflexivity]. Qed.

Lemma map_flat_map {A B C : Type} (f : A -> list B) (g : B -> C) (l : list A) :
  map g (flat_map f l) = flat_map (fun a => map g (f a)) l.
Proof.
  induction l; simpl; [reflexivity | rewrite map_app, IHl; reflexivity].
Qed.

Lemma flat_map_eq {A B : Type} (f g : A -> list B) (l : list A) :
  (forall a, In a l -> f a = g a) -> flat_map f l = flat_map g l.
Proof.
  induction l; simpl; intros H; [reflexivity|].
  rewrite (H a), IHl; auto.
Qed.

Lemma is_dot_newline c : is_dot c = true -> chr_eqb c newline = false.
Proof. unfold is_dot; destruct (chr_eqb c newline); [discriminate | reflexivity]. Qed.

Lemma lower_newline c : is_dot c = true -> chr_eqb (lower c) (lower newline) = false.
Proof.
  intros H. apply is_dot_newline in H.
  unfold chr_eqb in *. apply N.eqb_neq in H. apply N.eqb_neq.
  unfold lower, in_range, newline in *. simpl.
  destruct (65 <=? c)%N eqn:E1, (c <=? 90)%N eqn:E2; simpl; try assumption.
  apply N.leb_le in E1. lia.
Qed.

Lemma runs_split p s a b : In (a, b) (runs p s) -> s = a ++ b.
Proof.
  revert a b; induction s as [|c s IH]; simpl; intros a b H; [contradiction|].
  destruct (p c); [|contradiction].
  destruct H as [H|H].
  - inversion H; reflexivity.
  - apply in_map_iff in H. destruct H as [[a' b'] [E H]].
    inversion E; subst. rewrite (IH _ _ H); reflexivity.
Qed.

Lemma runs_class p s a b :
  In (a, b) (runs p s) -> a <> [] /\ forallb p a = true.
Proof.
  revert a b; induction s as [|c s IH]; simpl; intros a b H; [contradiction|].
  destruct (p c) eqn:E; [|contradiction].
  destruct H as [H|H].
  - inversion H; subst; simpl. rewrite E. split; [discriminate | reflexivity].
  - apply in_map_iff in H. destruct H as [[a' b'] [E' H]].
    inversion E'; subst. simpl. rewrite E. split; [discriminate|].
    apply (IH _ _ H).
Qed.

Lemma runs_local p x s :
  p newline = false ->
  runs p (s ++ newline :: x) =
  map (fun ab => (fst ab, snd ab ++ newline :: x)) (runs p s).
Proof.
  intros Hp. induction s as [|c s IH]; simpl.
  - rewrite Hp; reflexivity.
  - destruct (p c); [|reflexivity]. simpl. f_equal.
    rewrite IH, !map_map. apply map_ext. intros [a b]; reflexivity.
Qed.

Lemma strip_split ci w s s' :
  strip ci w s = Some s' ->
  s = firstn (List.length w) s ++ s' /\ (List.length w <= List.length s)%nat.
Proof.
  revert s; induction w as [|a w IH]; intros [|c s]; simpl; intros H;
    try discriminate.
  - inversion H; split; [reflexivity | lia].
  - inversion H; split; [reflexivity | lia].
  - destruct (if ci then _ else _); [|discriminate].
    destruct (IH _ H) as [E L]. split; [f_equal; exact E | lia].
Qed.

Lemma strip_exact w s s' : strip false w s = Some s' -> s = w ++ s'.
Proof.
  revert s; induction w as [|a w IH]; intros [|c s]; simpl; intros H;
    try discriminate.
  - inversion H; reflexivity.
  - inversion H; reflexivity.
  - destruct (chr_eqb a c) eqn:E; [|discriminate].
    apply chr_eqb_eq in E; subst c. f_equal. apply IH; exact H.
Qed.

Lemma strip_local ci w x s :
  forallb is_dot w = true ->
  strip ci w (s ++ newline :: x) =
  option_map (fun s' => s' ++ newline :: x) (strip ci w s).
Proof.
  revert s; induction w as [|a w IH]; intros s Hw; simpl.
  - reflexivity.
  - simpl in Hw. apply andb_true_iff in Hw. destruct Hw as [Ha Hw].
    destruct s as [|c s]; simpl.
    + destruct ci.
      * rewrite (lower_newline _ Ha); reflexivity.
      * rewrite (is_dot_newline _ Ha); reflexivity.
    + destruct (if ci then _ else _); [apply IH; exact Hw | reflexivity].
Qed.

Lemma matches_split r : forall prev s h,
  In h (matches r prev s) -> s = taken h ++ rest h.
Proof.
  induction r; intros prev s h H; simpl in H.
  - destruct s as [|c s]; [contradiction|].
    destruct (p c); [|contradiction].
    destruct H as [<-|[]]; reflexivity.
  - destruct (strip ci w s) as [s'|] eqn:E; [|contradiction].
    destruct H as [<-|[]]. simpl. apply (strip_split _ _ _ E).
  - destruct (at_bol prev); [|contradiction]. destruct H as [<-|[]]; reflexivity.
  - destruct (at_eol s); [|contradiction]. destruct H as [<-|[]]; reflexivity.
  - apply in_flat_map in H. destruct H as [h1 [H1 H]].
    apply in_map_iff in H. destruct H as [h2 [<- H2]]. simpl.
    rewrite (IHr1 _ _ _ H1) at 1. rewrite (IHr2 _ _ _ H2) at 1.
    rewrite app_assoc; reflexivity.
  - apply in_app_or in H. destruct H; eauto.
  - apply in_app_or in H. destruct H as [H|[<-|[]]]; eauto.
  - apply in_rev in H. apply in_map_iff in H. destruct H as [[a b] [<- H]].
    simpl. apply (runs_split _ _ _ _ H).
  - apply in_map_iff in H. destruct H as [[a b] [<- H]].
    simpl. apply (runs_split _ _ _ _ H).
  - apply in_map_iff in H. destruct H as [h1 [<- H1]]. simpl. eauto.
Qed.

Lemma last_chr_cons c w prev prev' : last_chr (c :: w) prev = last_chr (c :: w) prev'.
Proof.
  unfold last_chr. revert c; induction w as [|d w IH]; intros c; simpl.
  - reflexivity.
  - apply (IH d).
Qed.

Lemma at_bol_last_chr w prev prev' :
  at_bol prev = at_bol prev' ->
  at_bol (last_chr w prev) = at_bol (last_chr w prev').
Proof.
  intros H. destruct w as [|c w].
  - exact H.
  - rewrite (last_chr_cons c w prev prev'); reflexivity.
Qed.

(** A match depends on what comes before it only through [^]. *)
Lemma matches_prev r : forall prev prev' s,
  at_bol prev = at_bol prev' -> matches r prev s = matches r prev' s.
Proof.
  induction r; intros prev prev' s H; simpl; try reflexivity.
  - rewrite H; reflexivity.
  - rewrite (IHr1 prev prev' s H). apply flat_map_eq. intros h1 _.
    rewrite (IHr2 _ (last_chr (taken h1) prev')); [reflexivity|].
    apply at_bol_last_chr; exact H.
  - rewrite (IHr1 prev prev' s H), (IHr2 prev prev' s H); reflexivity.
  - rewrite (IHr prev prev' s H); reflexivity.
  - rewrite (IHr prev prev' s H); reflexivity.
Qed.

(** A pattern without line feeds matches on a line as it does on the line
    alone. *)
Lemma matches_local r x : nl_safe r = true -> forall prev s,
  matches r prev (s ++ newline :: x) =
  map (extend (newline :: x)) (matches r prev s).
Proof.
  induction r; simpl; intros Hr prev s.
  - apply negb_true_iff in Hr. destruct s as [|c s]; simpl.
    + rewrite Hr; reflexivity.
    + destruct (p c); reflexivity.
  - rewrite (strip_local ci w x s Hr).
    destruct (strip ci w s) as [s'|] eqn:E; simpl; [|reflexivity].
    unfold extend; simpl. destruct (strip_split _ _ _ E) as [_ L].
    rewrite firstn_app. replace (List.length w - List.length s)%nat with O by lia.
    simpl. rewrite app_nil_r. reflexivity.
  - destruct (at_bol prev); reflexivity.
  - replace (at_eol (s ++ newline :: x)) with (at_eol s)
      by (destruct s; reflexivity).
    destruct (at_eol s); reflexivity.
  - apply andb_true_iff in Hr. destruct Hr as [H1 H2].
    rewrite (IHr1 H1), flat_map_map, map_flat_map.
    apply flat_map_eq. intros h1 _. simpl.
    rewrite (IHr2 H2), !map_map. reflexivity.
  - apply andb_true_iff in Hr. destruct Hr as [H1 H2].
    rewrite (IHr1 H1), (IHr2 H2), map_app; reflexivity.
  - rewrite (IHr Hr), map_app; reflexivity.
  - apply negb_true_iff in Hr.
    rewrite (runs_local _ x s Hr), map_rev, !map_map; reflexivity.
  - apply negb_true_iff in Hr.
    rewrite (runs_local _ x s Hr), !map_map; reflexivity.
  - rewrite (IHr Hr), !map_map; reflexivity.
Qed.

(** ** Lines *)

(** A text is its first line, alone or followed by a line feed and the
    other lines. *)
Lemma lines_first s :
  exists l, forallb is_dot l = true /\
    ((s = l /\ lines s = [l]) \/
     (exists t, s = l ++ newline :: t /\ lines s = l :: lines t)).
Proof.
  induction s as [|c s IH].
  - exists []; split; [reflexivity | left; split; reflexivity].
  - simpl. destruct (chr_eqb c newline) eqn:E.
    + apply chr_eqb_eq in E; subst c.
      exists []; split; [reflexivity|]. right. exists s; split; reflexivity.
    + destruct IH as [l [Hl [[Hs Hlines]|[t [Hs Hlines]]]]]; rewrite Hlines.
      * exists (c :: l). simpl. unfold is_dot at 1. rewrite E, Hl.
        split; [reflexivity|]. left. rewrite Hs at 1. split; reflexivity.
      * exists (c :: l). simpl. unfold is_dot at 1. rewrite E, Hl.
        split; [reflexivity|]. right. exists t. rewrite Hs at 1.
        split; reflexivity.
Qed.


(** ** [findall] with a pattern anchored at the start of the lines *)

Section LineByLine.

Variable r : regex.

Hypothesis r_safe : nl_safe r = true.

Hypothesis r_anchored :
  forall prev s, at_bol prev = false -> matches r prev s = [].

Lemma scan_rest_of_line x l : forall c k,
  forallb is_dot l = true -> is_dot c = true ->
  (k <= List.length l)%nat ->
  scan r (Some c) (l ++ newline :: x) k = scan r (Some newline) x O.
Proof.
  induction l as [|c1 l IH]; intros c k Hl Hc Hk; simpl in *.
  - assert (k = O) by lia; subst k.
    rewrite r_anchored; [reflexivity|]. apply is_dot_newline; exact Hc.
  - apply andb_true_iff in Hl. destruct Hl as [Hc1 Hl].
    destruct k as [|k].
    + rewrite r_anchored by (apply is_dot_newline; exact Hc).
      apply IH; auto; lia.
    + apply IH; auto; lia.
Qed.

Lemma scan_rest_of_last_line l : forall c k,
  forallb is_dot l = true -> is_dot c = true ->
  (k <= List.length l)%nat ->
  scan r (Some c) l k = [].
Proof.
  induction l as [|c1 l IH]; intros c k Hl Hc Hk; simpl in *.
  - assert (k = O) by lia; subst k.
    rewrite r_anchored; [reflexivity|]. apply is_dot_newline; exact Hc.
  - apply andb_true_iff in Hl. destruct Hl as [Hc1 Hl].
    destruct k as [|k].
    + rewrite r_anchored by (apply is_dot_newline; exact Hc).
      apply IH; auto; lia.
    + apply IH; auto; lia.
Qed.

Lemma first_hit_length l h hs c l' :
  matches r None l = h :: hs -> l = c :: l' ->
  (Nat.pred (List.length (taken h)) <= List.length l')%nat.
Proof.
  intros E El.
  assert (Hs : l = taken h ++ rest h).
  { apply (matches_split r None l). rewrite E; left; reflexivity. }
  apply (f_equal (@List.length char)) in Hs.
  rewrite length_app in Hs. subst l. simpl in Hs. lia.
Qed.

Lemma scan_line x l prev :
  forallb is_dot l = true -> at_bol prev = true ->
  scan r prev (l ++ newline :: x) O =
  on_line r l ++ scan r (Some newline) x O.
Proof.
  intros Hl Hprev. unfold on_line.
  assert (E : scan r prev (l ++ newline :: x) O =
              match matches r prev (l ++ newline :: x) with
              | h :: _ =>
                  groups h ::
                  match l ++ newline :: x with
                  | c :: s' => scan r (Some c) s' (Nat.pred (List.length (taken h)))
                  | [] => []
                  end
              | [] =>
                  match l ++ newline :: x with
                  | c :: s' => scan r (Some c) s' O
                  | [] => []
                  end
              end) by (destruct l; reflexivity).
  rewrite E; clear E.
  rewrite (matches_prev r prev None) by exact Hprev.
  rewrite (matches_local r x r_safe).
  destruct (matches r None l) as [|h hs] eqn:Em; simpl map.
  - destruct l as [|c l']; simpl.
    + reflexivity.
    + simpl in Hl. apply andb_true_iff in Hl. destruct Hl.
      apply scan_rest_of_line; auto; lia.
  - destruct l as [|c l']; simpl.
    + assert (Hs : [] = taken h ++ rest h).
      { apply (matches_split r None []). rewrite Em; left; reflexivity. }
      destruct (taken h); [reflexivity | discriminate].
    + simpl in Hl. apply andb_true_iff in Hl. destruct Hl.
      f_equal. apply scan_rest_of_line; auto.
      eapply first_hit_length; [exact Em | reflexivity].
Qed.

Lemma scan_last_line l prev :
  forallb is_dot l = true -> at_bol prev = true ->
  scan r prev l O = on_line r l.
Proof.
  intros Hl Hprev. unfold on_line.
  assert (E : scan r prev l O =
              match matches r prev l with
              | h :: _ =>
                  groups h ::
                  match l with
                  | c :: s' => scan r (Some c) s' (Nat.pred (List.length (taken h)))
                  | [] => []
                  end
              | [] =>
                  match l with
                  | c :: s' => scan r (Some c) s' O
                  | [] => []
                  end
              end) by (destruct l; reflexivity).
  rewrite E; clear E.
  rewrite (matches_prev r prev None) by exact Hprev.
  destruct (matches r None l) as [|h hs] eqn:Em.
  - destruct l as [|c l']; [reflexivity|].
    simpl in Hl. apply andb_true_iff in Hl. destruct Hl.
    apply scan_rest_of_last_line; auto; lia.
  - destruct l as [|c l']; [reflexivity|].
    simpl in Hl. apply andb_true_iff in Hl. destruct Hl.
    f_equal. apply scan_rest_of_last_line; auto.
    eapply first_hit_length; [exact Em | reflexivity].
Qed.

Lemma scan_lines : forall n s prev,
  (List.length s <= n)%nat -> at_bol prev = true ->
  scan r prev s O = flat_map (on_line r) (lines s).
Proof.
  induction n as [|n IH]; intros s prev Hn Hprev.
  - destruct s; [|simpl in Hn; lia].
    rewrite (scan_last_line [] prev eq_refl Hprev). simpl.
    rewrite app_nil_r; reflexivity.
  - destruct (lines_first s) as [l [Hl [[Hs Hlines]|[t [Hs Hlines]]]]];
      rewrite Hlines; simpl.
    + rewrite app_nil_r. subst s. apply scan_last_line; assumption.
    + rewrite Hs at 1. rewrite (scan_line t l prev Hl Hprev). f_equal.
      apply IH; [|reflexivity].
      apply (f_equal (@List.length char)) in Hs.
      rewrite length_app in Hs. simpl in Hs. lia.
Qed.

Lemma findall_lines s : findall r s = flat_map (on_line r) (lines s).
Proof. apply scan_lines with (n := List.length s); [lia | reflexivity]. Qed.

End LineByLine.

(** ** What the patterns capture *)

Lemma in_Cat r1 r2 prev s h :
  In h (matches (r1 +++ r2) prev s) ->
  exists h1 h2,
    In h1 (matches r1 prev s) /\
    In h2 (matches r2 (last_chr (taken h1) prev) (rest h1)) /\
    taken h = taken h1 ++ taken h2 /\ rest h = rest h2 /\
    groups h = groups h1 ++ groups h2.
Proof.
  simpl. intros H. apply in_flat_map in H. destruct H as [h1 [H1 H]].
  apply in_map_iff in H. destruct H as [h2 [<- H2]].
  exists h1, h2; simpl; auto.
Qed.

Lemma in_Group r1 prev s h :
  In h (matches (Group r1) prev s) ->
  exists h1, In h1 (matches r1 prev s) /\
    taken h = taken h1 /\ rest h = rest h1 /\ groups h = taken h1 :: groups h1.
Proof.
  simpl. intros H. apply in_map_iff in H. destruct H as [h1 [<- H1]].
  exists h1; simpl; auto.
Qed.

Lemma in_Chr p prev s h :
  In h (matches (Chr p) prev s) ->
  exists c, p c = true /\ taken h = [c] /\ groups h = [].
Proof.
  simpl. destruct s as [|c s]; [contradiction|].
  destruct (p c) eqn:E; [|contradiction].
  intros [<-|[]]. exists c; simpl; auto.
Qed.

Lemma in_Opt_Chr p prev s h :
  In h (matches (Opt (Chr p)) prev s) ->
  (taken h = [] \/ exists c, p c = true /\ taken h = [c]) /\ groups h = [].
Proof.
  intros H. change (In h (matches (Chr p) prev s ++ [Hit [] s []])) in H.
  apply in_app_or in H. destruct H as [H|[<-|[]]].
  - apply in_Chr in H. destruct H as [c [Hc [Ht Hg]]]. split; [right; eauto | auto].
  - simpl; auto.
Qed.

Lemma in_Opt_Lit w prev s h :
  In h (matches (Opt (Lit false w)) prev s) ->
  (taken h = [] \/ taken h = w) /\ groups h = [].
Proof.
  simpl. intros H. apply in_app_or in H. destruct H as [H|[<-|[]]].
  - destruct (strip false w s) as [s'|] eqn:E; [|contradiction].
    destruct H as [<-|[]]. simpl. split; [right | reflexivity].
    rewrite (strip_exact _ _ E). rewrite firstn_app, Nat.sub_diag, firstn_all.
    simpl. apply app_nil_r.
  - simpl; auto.
Qed.

Lemma in_Lit w prev s h :
  In h (matches (Lit false w) prev s) -> taken h = w /\ groups h = [].
Proof.
  simpl. destruct (strip false w s) as [s'|] eqn:E; [|contradiction].
  intros [<-|[]]. simpl. split; [|reflexivity].
  rewrite (strip_exact _ _ E). rewrite firstn_app, Nat.sub_diag, firstn_all.
  simpl. apply app_nil_r.
Qed.

Lemma in_Bol prev s h :
  In h (matches Bol prev s) -> taken h = [] /\ groups h = [].
Proof.
  simpl. destruct (at_bol prev); [|contradiction].
  intros [<-|[]]; simpl; auto.
Qed.

Lemma in_PlusLazy p prev s h :
  In h (matches (PlusLazy p) prev s) ->
  taken h <> [] /\ forallb p (taken h) = true /\ groups h = [].
Proof.
  simpl. intros H. apply in_map_iff in H. destruct H as [[a b] [<- H]].
  simpl. destruct (runs_class _ _ _ _ H). auto.
Qed.

Lemma in_Plus p prev s h :
  In h (matches (Plus p) prev s) ->
  taken h <> [] /\ forallb p (taken h) = true /\ groups h = [].
Proof.
  simpl. intros H. apply in_rev in H.
  apply in_map_iff in H. destruct H as [[a b] [<- H]].
  simpl. destruct (runs_class _ _ _ _ H). auto.
Qed.

(** Taking a match of a pattern apart, piece by piece. *)
Ltac hit_inv :=
  repeat match goal with
  | H : In _ (matches (_ +++ _) _ _) |- _ =>
      apply in_Cat in H;
      let h1 := fresh "h" in let h2 := fresh "h" in
      destruct H as (h1 & h2 & ? & ? & ? & ? & ?)
  | H : In _ (matches (Group _) _ _) |- _ =>
      apply in_Group in H;
      let h1 := fresh "h" in destruct H as (h1 & ? & ? & ? & ?)
  | H : In _ (matches digit _ _) |- _ =>
      apply in_Chr in H;
      let c := fresh "c" in destruct H as (c & ? & ? & ?)
  | H : In _ (matches (Chr _) _ _) |- _ =>
      apply in_Chr in H;
      let c := fresh "c" in destruct H as (c & ? & ? & ?)
  | H : In _ (matches (Opt digit) _ _) |- _ =>
      apply in_Opt_Chr in H;
      let c := fresh "c" in destruct H as ([? | (c & ? & ?)] & ?)
  | H : In _ (matches (Opt (Lit false _)) _ _) |- _ =>
      apply in_Opt_Lit in H; destruct H as ([? | ?] & ?)
  | H : In _ (matches (Lit false _) _ _) |- _ =>
      apply in_Lit in H; destruct H as (? & ?)
  | H : In _ (matches Bol _ _) |- _ =>
      apply in_Bol in H; destruct H as (? & ?)
  | H : In _ (matches (PlusLazy _) _ _) |- _ =>
      apply in_PlusLazy in H; destruct H as (? & ? & ?)
  | H : In _ (matches (Plus _) _ _) |- _ =>
      apply in_Plus in H; destruct H as (? & ? & ?)
  end.

Ltac hit_rewrite :=
  repeat match goal with
  | H : taken _ = _ |- _ => rewrite H in *; clear H
  | H : groups _ = _ |- _ => rewrite H in *; clear H
  end.

Lemma amount_hit prev s h :
  In h (matches amount_re prev s) ->
  is_amount (taken h) = true /\ groups h = [].
Proof.
  unfold amount_re. intros H. hit_inv; hit_rewrite;
    (split; [|reflexivity]);
    cbv [u utf8 map list_ascii_of_string N_of_ascii N_of_digits N.ltb N.compare
         Pos.compare Pos.compare_cont N.add N.mul Pos.add Pos.mul app is_amount];
    repeat match goal with H : is_digit _ = true |- _ => rewrite H; clear H end;
    reflexivity.
Qed.

Lemma quantity_hit prev s h :
  In h (matches (Bol +++ digit +++ Opt digit) prev s) ->
  is_quantity (taken h) = true /\ groups h = [].
Proof.
  intros H. hit_inv; hit_rewrite; (split; [|reflexivity]); simpl;
    repeat match goal with H : is_digit _ = true |- _ => rewrite H; clear H end;
    reflexivity.
Qed.


Lemma purchase_re_anchored prev s :
  at_bol prev = false -> matches purchase_re prev s = [].
Proof.
  intros H. unfold purchase_re. cbn [matches]. rewrite H. reflexivity.
Qed.

(** ** Conversions of the captured texts *)















(** ** Building a match of the pattern of the purchases *)

Lemma cat_intro r1 r2 prev s h1 h2 :
  In h1 (matches r1 prev s) ->
  In h2 (matches r2 (last_chr (taken h1) prev) (rest h1)) ->
  In (Hit (taken h1 ++ taken h2) (rest h2) (groups h1 ++ groups h2))
     (matches (r1 +++ r2) prev s).
Proof.
  intros H1 H2. simpl. apply in_flat_map. exists h1. split; [exact H1|].
  apply (in_map (fun h2 => Hit (taken h1 ++ taken h2) (rest h2)
                               (groups h1 ++ groups h2)) _ _ H2).
Qed.

Lemma group_intro r1 prev s h :
  In h (matches r1 prev s) ->
  In (Hit (taken h) (rest h) (taken h :: groups h)) (matches (Group r1) prev s).
Proof.
  intros H. simpl.
  apply (in_map (fun h => Hit (taken h) (rest h) (taken h :: groups h)) _ _ H).
Qed.

Lemma chr_intro p prev c s :
  p c = true -> In (Hit [c] s []) (matches (Chr p) prev (c :: s)).
Proof. intros H. simpl. rewrite H. left; reflexivity. Qed.

Lemma strip_app w x : strip false w (w ++ x) = Some x.
Proof.
  induction w as [|a w IH]; simpl; [reflexivity|].
  unfold chr_eqb. rewrite N.eqb_refl. exact IH.
Qed.

Lemma lit_intro w prev x :
  In (Hit w x []) (matches (Lit false w) prev (w ++ x)).
Proof.
  simpl. rewrite strip_app, firstn_app, Nat.sub_diag, firstn_all.
  simpl. rewrite app_nil_r. left; reflexivity.
Qed.

Lemma runs_intro p d x :
  d <> [] -> forallb p d = true -> In (d, x) (runs p (d ++ x)).
Proof.
  induction d as [|c d IH]; intros Hd Hp; [contradiction Hd; reflexivity|].
  simpl in Hp. apply andb_true_iff in Hp. destruct Hp as [Hc Hp].
  simpl. rewrite Hc. destruct d as [|c' d'].
  - left; reflexivity.
  - right. apply in_map_iff. exists (c' :: d', x). split; [reflexivity|].
    apply IH; [discriminate | exact Hp].
Qed.



Lemma tail_intro prev c d x :
  is_digit c = true -> is_digit d = true ->
  In (Hit (u "." ++ [c; d]) x [])
     (matches (Lit false (u ".") +++ digit +++ digit) prev
              (u "." ++ [c; d] ++ x)).
Proof.
  intros Hc Hd.
  apply (@cat_intro (Lit false (u ".")) (digit +++ digit) prev
           (u "." ++ [c; d] ++ x) (Hit (u ".") ([c; d] ++ x) [])
           (Hit [c; d] x [])).
  - apply lit_intro.
  - apply (@cat_intro digit digit _ ([c; d] ++ x) (Hit [c] (d :: x) [])
             (Hit [d] x [])).
    + apply chr_intro; exact Hc.
    + apply chr_intro; exact Hd.
Qed.

Lemma amount_intro prev a x :
  is_amount a = true -> In (Hit a x []) (matches amount_re prev (a ++ x)).
Proof.
  intros Ha. unfold amount_re.
  destruct a as [|x1 [|x2 [|x3 [|x4 [|x5 [|x6 a]]]]]];
    cbn [is_amount] in Ha; try discriminate.
  - rewrite !andb_true_iff in Ha. destruct Ha as [[[H1 H2] H3] H4].
    apply chr_eqb_eq in H2. subst x2.
    apply (@cat_intro digit _ prev ([x1] ++ u "." ++ [x3; x4] ++ x)
             (Hit [x1] (u "." ++ [x3; x4] ++ x) [])
             (Hit (u "." ++ [x3; x4]) x [])).
    + apply chr_intro; exact H1.
    + apply (@cat_intro (Opt digit) _ _ (u "." ++ [x3; x4] ++ x)
               (Hit [] (u "." ++ [x3; x4] ++ x) [])
               (Hit (u "." ++ [x3; x4]) x [])).
      * apply in_or_app. right. left; reflexivity.
      * apply tail_intro; assumption.
  - rewrite !andb_true_iff in Ha. destruct Ha as [[[[H1 H2] H3] H4] H5].
    apply chr_eqb_eq in H3. subst x3.
    apply (@cat_intro digit _ prev ([x1; x2] ++ u "." ++ [x4; x5] ++ x)
             (Hit [x1] ([x2] ++ u "." ++ [x4; x5] ++ x) [])
             (Hit ([x2] ++ u "." ++ [x4; x5]) x [])).
    + apply chr_intro; exact H1.
    + apply (@cat_intro (Opt digit) _ _ ([x2] ++ u "." ++ [x4; x5] ++ x)
               (Hit [x2] (u "." ++ [x4; x5] ++ x) [])
               (Hit (u "." ++ [x4; x5]) x [])).
      * apply in_or_app. left. apply chr_intro; exact H2.
      * apply tail_intro; assumption.
Qed.


(** ** The first match *)

Lemma hd_flat_map {A B : Type} (F : A -> list B) L h t :
  flat_map F L = h :: t ->
  exists L1 x L2 t',
    L = L1 ++ x :: L2 /\ (forall y, In y L1 -> F y = []) /\ F x = h :: t'.
Proof.
  induction L as [|x L IH]; simpl; [discriminate|].
  destruct (F x) as [|h0 t0] eqn:E; simpl.
  - intros H. destruct (IH H) as (L1 & x' & L2 & t' & -> & Hn & Hx).
    exists (x :: L1), x', L2, t'. split; [reflexivity|]. split; [|exact Hx].
    intros y [<-|Hy]; [exact E | apply Hn; exact Hy].
  - intros H. inversion H; subst.
    exists [], x, L, t0. split; [reflexivity|]. split; [intros y []|exact E].
Qed.

(** The first match of a concatenation: the first match of its first
    part after which the second part matches, and the first match of the
    second part from there. *)
Lemma hd_Cat r1 r2 prev s h t :
  matches (r1 +++ r2) prev s = h :: t ->
  exists L1 h1 L2 h2 t2,
    matches r1 prev s = L1 ++ h1 :: L2 /\
    (forall y, In y L1 -> matches r2 (last_chr (taken y) prev) (rest y) = []) /\
    matches r2 (last_chr (taken h1) prev) (rest h1) = h2 :: t2 /\
    h = Hit (taken h1 ++ taken h2) (rest h2) (groups h1 ++ groups h2).
Proof.
  simpl. intros H. apply hd_flat_map in H.
  destruct H as (L1 & h1 & L2 & t' & HL & Hn & Hx).
  destruct (matches r2 (last_chr (taken h1) prev) (rest h1)) as [|h2 t2] eqn:E;
    [discriminate|].
  simpl in Hx. inversion Hx; subst.
  exists L1, h1, L2, h2, t2. repeat split; auto.
  intros y Hy. specialize (Hn y Hy).
  destruct (matches r2 (last_chr (taken y) prev) (rest y)); [reflexivity|].
  discriminate.
Qed.

Lemma runs_order p s : forall M1 m M2 m',
  runs p s = M1 ++ m :: M2 -> In m' (m :: M2) ->
  exists more, fst m' = fst m ++ more.
Proof.
  induction s as [|c s IH]; intros M1 m M2 m' H Hin; simpl in H.
  - destruct M1; discriminate.
  - destruct (p c); [|destruct M1; discriminate].
    assert (Hc : forall y, In y (([c], s) :: map (fun '(a, b) => (c :: a, b)) (runs p s)) ->
                 exists a, fst y = c :: a).
    { intros y [<-|Hy]; [exists []; reflexivity|].
      apply in_map_iff in Hy. destruct Hy as [[a b] [<- _]].
      exists a; reflexivity. }
    destruct M1 as [|y M1]; simpl in H.
    + inversion H; subst m M2. simpl.
      destruct (Hc m') as [a Ha].
      { destruct Hin as [<-|Hin]; [left; reflexivity | right; exact Hin]. }
      exists a. exact Ha.
    + inversion H as [[Hy Hrest]].
      apply map_eq_app in Hrest.
      destruct Hrest as (N1 & N' & Hruns & HN1 & HN').
      destruct N' as [|n N2]; [discriminate|].
      simpl in HN'. inversion HN' as [[Hm HM2]].
      assert (Hin' : exists n', In n' (n :: N2) /\
                       m' = (let '(a, b) := n' in (c :: a, b))).
      { rewrite <- Hm, <- HM2 in Hin. destruct Hin as [Hin|Hin].
        - exists n. split; [left; reflexivity | symmetry; exact Hin].
        - apply in_map_iff in Hin.
          destruct Hin as [n' [E Hn']]. exists n'. split; [right; exact Hn'|].
          symmetry; exact E. }
      destruct Hin' as (n' & Hn' & ->).
      destruct (IH _ _ _ n' Hruns Hn') as [more Hmore].
      exists more. destruct n as [a b], n' as [a' b'].
      simpl in *. rewrite Hmore. reflexivity.
Qed.

Lemma quantity_unique q q' x x' :
  is_quantity q = true -> is_quantity q' = true ->
  q ++ space :: x = q' ++ space :: x' -> q = q' /\ x = x'.
Proof.
  assert (Hs : forall c, is_digit c = true -> c <> space).
  { intros c Hc E. subst c. discriminate Hc. }
  intros Hq Hq' E.
  destruct q as [|a [|b [|c q]]]; cbn [is_quantity] in Hq; try discriminate;
    destruct q' as [|a' [|b' [|c' q']]]; cbn [is_quantity] in Hq';
    try discriminate;
    rewrite ?andb_true_iff in *; simpl in E; inversion E; subst; auto.
  - destruct Hq' as [_ Hb]. contradiction (Hs _ Hb). reflexivity.
  - destruct Hq as [_ Hb]. contradiction (Hs _ Hb). reflexivity.
Qed.

Lemma price_tail_intro prev a tail :
  is_amount a = true ->
  matches (Lit false (u " £") +++ Group amount_re) prev (u " £" ++ a ++ tail)
  <> [].
Proof.
  intros Ha E.
  assert (H : In (Hit (u " £" ++ a) tail ([] ++ [a]))
                 (matches (Lit false (u " £") +++ Group amount_re) prev
                          (u " £" ++ a ++ tail))).
  { apply (@cat_intro (Lit false (u " £")) (Group amount_re) prev _
             (Hit (u " £") (a ++ tail) []) (Hit a tail [a])).
    - apply lit_intro.
    - apply (@group_intro _ _ _ (Hit a tail [])).
      apply amount_intro; exact Ha. }
  rewrite E in H. contradiction H.
Qed.

Lemma price_tail_hit prev s h :
  In h (matches (Lit false (u " £") +++ Group amount_re) prev s) ->
  exists a, groups h = [a].
Proof.
  intros H.
  apply in_Cat in H. destruct H as (h1 & h2 & H1 & H2 & _ & _ & Hg).
  apply in_Lit in H1. destruct H1 as [_ Hg1].
  apply in_Group in H2. destruct H2 as (ha & Ha & _ & _ & Hga).
  apply amount_hit in Ha. destruct Ha as [_ Ha].
  exists (taken ha). rewrite Hg, Hg1, Hga, Ha. reflexivity.
Qed.

(** The description found on a line is the shortest one. *)
Lemma found_description_is_shortest l q d a q' d' a' tail'
    (Hfound : line_purchase l = [[q; d; a]])
    (Hline : l = q' ++ u " " ++ d' ++ u " £" ++ a' ++ tail')
    (Hq' : is_quantity q' = true)
    (Hd' : d' <> [])
    (Hdot : forallb is_dot d' = true)
    (Ha' : is_amount a' = true) :
  q' = q /\ exists more, d' = d ++ more.
Proof.
  unfold line_purchase, on_line in Hfound.
  destruct (matches purchase_re None l) as [|h hs] eqn:E; [discriminate|].
  inversion Hfound as [Hg]. clear Hfound.
  unfold purchase_re in E.
  apply hd_Cat in E.
  destruct E as (A1 & h1 & A2 & hR & tR & E1 & _ & ER & Hh).
  assert (H1 : In h1 (matches (Group (Bol +++ digit +++ Opt digit)) None l))
    by (rewrite E1; apply in_or_app; right; left; reflexivity).
  pose proof (matches_split _ _ _ _ H1) as Hl.
  apply in_Group in H1. destruct H1 as (hq & Hq & Htq & _ & Hgq).
  apply quantity_hit in Hq. destruct Hq as [Hq Hq0].
  apply hd_Cat in ER.
  destruct ER as (B1 & hl & B2 & hR2 & tR2 & EL & _ & ER2 & HhR).
  assert (HL : In hl (matches (Lit false (u " ")) (last_chr (taken h1) None)
                              (rest h1)))
    by (rewrite EL; apply in_or_app; right; left; reflexivity).
  pose proof (matches_split _ _ _ _ HL) as Hr1.
  apply in_Lit in HL. destruct HL as [Htl Hgl].
  apply hd_Cat in ER2.
  destruct ER2 as (C1 & hg & C2 & h2 & t2 & EG & Hnone & E2 & HhR2).
  assert (H2 : In h2 (matches (Lit false (u " £") +++ Group amount_re)
                        (last_chr (taken hg)
                           (last_chr (taken hl) (last_chr (taken h1) None)))
                        (rest hg)))
    by (rewrite E2; left; reflexivity).
  apply price_tail_hit in H2. destruct H2 as [am Ham].
  (* the groups of the first match *)
  assert (Hgg : groups hg = [taken hg]).
  { assert (HG : In hg (matches (Group (PlusLazy is_dot))
                          (last_chr (taken hl) (last_chr (taken h1) None))
                          (rest hl)))
      by (rewrite EG; apply in_or_app; right; left; reflexivity).
    apply in_Group in HG. destruct HG as (hd0 & Hd0 & Ht0 & _ & Hg0).
    apply in_PlusLazy in Hd0. destruct Hd0 as (_ & _ & Hd0).
    rewrite Hg0, Hd0, Ht0. reflexivity. }
  subst h hR hR2. cbn [groups] in Hg.
  rewrite Hgq, Hq0, Hgl, Hgg, Ham in Hg. simpl in Hg.
  inversion Hg as [[Eq Ed Ea]]. clear Hg.
  (* the line after the quantity *)
  rewrite Hr1, Htl, Htq in Hl.
  rewrite Hline in Hl.
  change (u " " ++ d' ++ u " £" ++ a' ++ tail')
    with (space :: d' ++ u " £" ++ a' ++ tail') in Hl.
  change (u " " ++ rest hl) with (space :: rest hl) in Hl.
  destruct (quantity_unique _ _ _ _ Hq' Hq Hl) as [Hqq Hrest].
  split; [exact Hqq|].
  (* the runs of the description *)
  assert (EG' : map (fun ab => Hit (fst ab) (snd ab) [fst ab])
                    (runs is_dot (rest hl)) = C1 ++ hg :: C2).
  { rewrite <- EG. simpl. rewrite map_map. reflexivity. }
  apply map_eq_app in EG'. destruct EG' as (M1 & M' & Hruns & HM1 & HM').
  destruct M' as [|m M2]; [discriminate|].
  simpl in HM'. inversion HM' as [[Hm HM2]].
  assert (Hin : In (d', u " £" ++ a' ++ tail') (runs is_dot (rest hl))).
  { rewrite <- Hrest. apply runs_intro; assumption. }
  rewrite Hruns in Hin. apply in_app_or in Hin. destruct Hin as [Hin|Hin].
  - exfalso.
    apply (in_map (fun ab => Hit (fst ab) (snd ab) [fst ab])) in Hin.
    rewrite HM1 in Hin. specialize (Hnone _ Hin).
    cbn [taken rest fst snd] in Hnone.
    apply (@price_tail_intro _ a' tail' Ha' Hnone).
  - destruct (@runs_order is_dot (rest hl) M1 m M2 _ Hruns Hin) as [more Hmore].
    exists more. cbn [fst] in Hmore. exact Hmore.
Qed.

(** ** The claims of the specification *)

(** C1: the total that [parse_receipt] returns is the sum of the prices
    of all the purchases it returns, the delivery costs and the voucher
    that were appended among them, plus the voucher and plus the delivery
    cost; for the order of the specification the purchases are the four
    of its scenario and the total is 7.00. *)
Theorem total_adds_voucher_and_delivery ifile info purchases
    (Hparse : parse_receipt ifile = Ok (info, purchases)) :
  (exists bought delivery_cost voucher,
     delivery_cost_of ifile = Ok delivery_cost /\
     voucher_of ifile = Ok voucher /\
     mapM to_purchase (findall purchase_re ifile) = Ok bought /\
     purchases = with_extras bought delivery_cost voucher /\
     total info =
       fadd (fadd (sum (map price purchases)) voucher) delivery_cost) /\
  parse_receipt receipt =
    Ok (OrderInfo (Datetime 1900 1 12) (cents 700),
        [mkPurchase (u "Bananas") (cents 100) 2;
         mkPurchase (u "Bread") (cents 200) 1;
         mkPurchase (u "Delivery costs") (cents 300) 1;
         mkPurchase (u "Voucher savings") (cents (-100)) 1]).
Proof.
  split; [|vm_compute; reflexivity].
  destruct (parse_receipt_Ok _ Hparse)
    as (date & dc & v & bought & _ & Hdc & Hv & Hb & Hps & Hinfo).
  exists bought, dc, v. subst info. repeat split; assumption.
Qed.

Lemma total_adds_voucher_and_delivery_witness :
  exists bought delivery_cost voucher,
    delivery_cost_of receipt = Ok delivery_cost /\
    voucher_of receipt = Ok voucher /\
    mapM to_purchase (findall purchase_re receipt) = Ok bought /\
    with_extras [bananas; bread] (cents 300) (cents (-100)) =
      with_extras bought delivery_cost voucher /\
    cents 700 =
      fadd (fadd (sum (map price
                         (with_extras [bananas; bread] (cents 300)
                                      (cents (-100)))))
                 voucher) delivery_cost.
Proof.
  refine (proj1 (@total_adds_voucher_and_delivery receipt
            (OrderInfo (Datetime 1900 1 12) (cents 700))
            (with_extras [bananas; bread] (cents 300) (cents (-100))) _)).
  vm_compute. reflexivity.
Defined.

(** C2 (as amended): when the prompt of a purchase raises
    [KeyboardInterrupt], [main] ends without an error and with the cursor
    closed, but it has printed the two lines of the heading only: no line
    of the bill, whatever shares were recorded before the interrupt. *)
Theorem interrupt_ends_without_report
    (ask : nat -> Purchase -> result pystr) ifile info purchases st
    (Hparse : parse_receipt ifile = Ok (info, purchases))
    (Hint : assign_all ask start purchases = (st, Some KeyboardInterrupt)) :
  main ask ifile = Outcome heading None true /\
  exists purchase, In purchase purchases /\
    ask (List.length (asked st)) purchase = Raise KeyboardInterrupt.
Proof.
  split.
  - rewrite (main_unfold ask ifile Hparse Hint); reflexivity.
  - eapply assign_all_interrupt; exact Hint.
Qed.

Lemma interrupt_ends_without_report_witness :
  main cancelled_session receipt_zero_voucher = Outcome heading None true.
Proof.
  eapply proj1, (@interrupt_ends_without_report cancelled_session
                   receipt_zero_voucher).
  - vm_compute. reflexivity.
  - vm_compute. reflexivity.
Defined.

(** C2 (as stated) fails: in a session of three prompts cancelled at the
    second one, the shares of the first answer are recorded and would
    make two lines of bill, but nothing is printed after the heading. *)
Lemma interrupt_report_counterexample :
  exists info purchases st,
    parse_receipt receipt_zero_voucher = Ok (info, purchases) /\
    assign_all cancelled_session start purchases =
      (st, Some KeyboardInterrupt) /\
    divide_order_bill (baskets st) =
      [(u "Alice", cents 50); (u "Bob", cents 50)] /\
    report (baskets st) = [u "Alice spent £0.50"; u "Bob spent £0.50"] /\
    stdout (main cancelled_session receipt_zero_voucher) = heading /\
    stdout (main cancelled_session receipt_zero_voucher) <>
      heading ++ report (baskets st).
Proof.
  eexists _, _, _.
  split; [vm_compute; reflexivity|].
  split; [vm_compute; reflexivity|].
  repeat split; try (vm_compute; reflexivity).
  vm_compute; discriminate.
Qed.




(** C4: for a purchase whose price is not zero and whose unit share
    [price / quantity] is defined, every identifier of the answer gets
    that share, once for each time it is listed and whatever the number
    of identifiers listed; and in the order of the specification, with
    the answers of its scenario, Alice owes 4.50 and Bob 2.50. *)
Theorem each_purchaser_gets_the_unit_share
    (ask : nat -> Purchase -> result pystr) st purchase share answer
    (Hprice : is_zero (price purchase) = false)
    (Hshare : unit_cost purchase = Ok share)
    (Hanswer : ask (List.length (asked st)) purchase = Ok answer) :
  share = fdiv (price purchase) (float_of_Z (quantity purchase)) /\
  (exists st',
     assign_step ask st purchase = Ok st' /\
     asked st' = asked st ++ [purchase] /\
     forall flatmate,
       get (baskets st') flatmate =
       more_shares (get (baskets st) flatmate)
         (repeat share
            (List.length (filter (fun f => pystr_eqb f flatmate)
                                 (split answer))))) /\
  (exists info purchases st',
     parse_receipt receipt = Ok (info, purchases) /\
     assign_all full_session start purchases = (st', None) /\
     divide_order_bill (baskets st') =
       [(u "Alice", cents 450); (u "Bob", cents 250)]).
Proof.
  split; [apply unit_cost_Ok; exact Hshare|].
  split.
  - unfold assign_step, assign_purchase.
    rewrite Hprice, Hshare; cbn [bind]. rewrite Hanswer; cbn [bind].
    eexists; split; [reflexivity|]. split; [reflexivity|].
    intros flatmate. cbn [baskets].
    rewrite fold_record_all, get_record_all, shares_of_same. reflexivity.
  - eexists _, _, _.
    split; [vm_compute; reflexivity|].
    split; vm_compute; reflexivity.
Qed.

Lemma each_purchaser_gets_the_unit_share_witness :
  exists st',
    assign_step full_session start bananas = Ok st' /\
    asked st' = [bananas] /\
    forall flatmate,
      get (baskets st') flatmate =
      more_shares None
        (repeat (cents 50)
           (List.length (filter (fun f => pystr_eqb f flatmate)
                                [u "Alice"; u "Bob"]))).
Proof.
  refine (proj1 (proj2 (@each_purchaser_gets_the_unit_share
                          full_session start bananas (cents 50)
                          (u "Alice Bob") _ _ _))).
  - reflexivity.
  - vm_compute. reflexivity.
  - reflexivity.
Defined.







(** C7: a purchase whose price is zero leaves the baskets and the list of
    the purchases asked about as they were, and a run of the loop is the
    same with and without it: it is never asked about and no share of it
    is recorded. *)
Theorem zero_price_never_recorded
    (ask : nat -> Purchase -> result pystr) purchase
    (Hzero : is_zero (price purchase) = true) :
  (forall st, assign_step ask st purchase = Ok st) /\
  (forall before after st,
     assign_all ask st (before ++ purchase :: after) =
     assign_all ask st (before ++ after)).
Proof.
  split.
  - intros st; apply assign_step_zero; exact Hzero.
  - apply assign_all_skip; exact Hzero.
Qed.

Lemma zero_price_never_recorded_witness :
  is_zero (price free_sample) = true /\
  (forall st, assign_step (answers [Ok (u "Alice")]) st free_sample = Ok st).
Proof.
  split.
  - reflexivity.
  - apply (@zero_price_never_recorded (answers [Ok (u "Alice")]) free_sample).
    reflexivity.
Defined.

(** C8: the purchases that [parse_receipt] returns are those of the lines
    followed by the delivery costs, and then by the voucher savings when,
    and only when, the voucher read from the receipt is not zero. *)
Theorem extras_are_appended ifile info purchases
    (Hparse : parse_receipt ifile = Ok (info, purchases)) :
  exists bought delivery_cost voucher,
    mapM to_purchase (findall purchase_re ifile) = Ok bought /\
    delivery_cost_of ifile = Ok delivery_cost /\
    voucher_of ifile = Ok voucher /\
    (is_zero voucher = true ->
     purchases = bought ++ [mkPurchase (u "Delivery costs") delivery_cost 1]) /\
    (is_zero voucher = false ->
     purchases = bought ++ [mkPurchase (u "Delivery costs") delivery_cost 1;
                            mkPurchase (u "Voucher savings") voucher 1]).
Proof.
  destruct (parse_receipt_Ok _ Hparse)
    as (date & dc & v & bought & _ & Hdc & Hv & Hb & Hps & _).
  exists bought, dc, v. repeat split; try assumption.
  - intros Hz. subst purchases. unfold with_extras. rewrite Hz. reflexivity.
  - intros Hz. subst purchases. unfold with_extras. rewrite Hz.
    rewrite <- app_assoc. reflexivity.
Qed.

Lemma extras_are_appended_witness :
  exists bought delivery_cost voucher,
    mapM to_purchase (findall purchase_re receipt_zero_voucher) = Ok bought /\
    delivery_cost_of receipt_zero_voucher = Ok delivery_cost /\
    voucher_of receipt_zero_voucher = Ok voucher /\
    (is_zero voucher = true ->
     [bananas; bread; mkPurchase (u "Delivery costs") (cents 300) 1] =
     bought ++ [mkPurchase (u "Delivery costs") delivery_cost 1]) /\
    (is_zero voucher = false ->
     [bananas; bread; mkPurchase (u "Delivery costs") (cents 300) 1] =
     bought ++ [mkPurchase (u "Delivery costs") delivery_cost 1;
                mkPurchase (u "Voucher savings") voucher 1]).
Proof.
  refine (@extras_are_appended receipt_zero_voucher
            (OrderInfo (Datetime 1900 1 12) (cents 900))
            [bananas; bread; mkPurchase (u "Delivery costs") (cents 300) 1] _).
  vm_compute. reflexivity.
Defined.

(** C9 (as amended): [divide_order_bill] maps each flatmate to the sum of
    the shares recorded for them, added from left to right; the bill of
    no baskets is empty; and two sequences of [record] calls that give
    every flatmate the same shares in the same order, however the calls of
    different flatmates are interleaved, give every flatmate the same
    total. *)
Theorem bill_sums_shares_in_call_order :
  (forall baskets flatmate,
     get (divide_order_bill baskets) flatmate =
     option_map sum (get baskets flatmate)) /\
  divide_order_bill [] = [] /\
  (forall calls1 calls2,
     (forall flatmate, shares_of flatmate calls1 = shares_of flatmate calls2) ->
     forall flatmate,
       get (divide_order_bill (record_all [] calls1)) flatmate =
       get (divide_order_bill (record_all [] calls2)) flatmate).
Proof.
  split; [exact get_divide_order_bill|].
  split; [reflexivity|].
  intros calls1 calls2 H flatmate.
  rewrite !get_divide_order_bill, !get_record_all, H; reflexivity.
Qed.

Lemma bill_sums_shares_in_call_order_witness :
  get (divide_order_bill (record_all [] calls_ab)) (u "Bob") =
  get (divide_order_bill (record_all [] calls_ba)) (u "Bob").
Proof.
  apply (proj2 (proj2 bill_sums_shares_in_call_order) calls_ab calls_ba).
  intros flatmate. unfold shares_of, calls_ab, calls_ba. cbn [filter fst].
  destruct (pystr_eqb (u "Alice") flatmate) eqn:EA;
    destruct (pystr_eqb (u "Bob") flatmate) eqn:EB; try reflexivity.
  apply pystr_eqb_eq in EA; subst flatmate. vm_compute in EB. discriminate EB.
Defined.

(** C9 (as stated) fails: the shares 0.10, 0.20 and 0.30 recorded for one
    flatmate in this order and in the opposite order, which are the same
    calls, do not add up to the same float. *)
Lemma bill_order_counterexample :
  ~ (forall calls1 calls2,
       Permutation calls1 calls2 ->
       forall flatmate,
         get (divide_order_bill (record_all [] calls1)) flatmate =
         get (divide_order_bill (record_all [] calls2)) flatmate).
Proof.
  intros H.
  specialize (H [(u "Alice", cents 10); (u "Alice", cents 20);
                 (u "Alice", cents 30)]
                [(u "Alice", cents 30); (u "Alice", cents 20);
                 (u "Alice", cents 10)]).
  assert (P : Permutation
                [(u "Alice", cents 10); (u "Alice", cents 20);
                 (u "Alice", cents 30)]
                [(u "Alice", cents 30); (u "Alice", cents 20);
                 (u "Alice", cents 10)]).
  { apply (Permutation_rev [(u "Alice", cents 10); (u "Alice", cents 20);
                            (u "Alice", cents 30)]). }
  specialize (H P (u "Alice")).
  vm_compute in H. discriminate H.
Qed.




(** * Further properties of the script *)

(** ** What [parse_receipt] can and cannot do *)

















(** ** Which lines give a purchase *)



Lemma lines_not_nil s : lines s <> [].
Proof.
  destruct s as [|c s]; simpl; [discriminate|].
  destruct (chr_eqb c newline); [discriminate|].
  destruct (lines s); discriminate.
Qed.

Lemma lines_app a b : lines (a ++ newline :: b) = lines a ++ lines b.
Proof.
  induction a as [|c a IH]; [reflexivity|].
  cbn [app lines]. rewrite IH.
  destruct (chr_eqb c newline); [reflexivity|].
  destruct (lines a) as [|l ls] eqn:E; [|reflexivity].
  contradiction (lines_not_nil a).
Qed.

(** X6: the purchases found in two texts put one after the other, a line
    feed between them, are those of the first followed by those of the
    second: what is found on a line does not depend on the other lines. *)
Theorem findall_of_joined_texts a b :
  findall purchase_re (a ++ newline :: b) =
  findall purchase_re a ++ findall purchase_re b.
Proof.
  rewrite !(findall_lines purchase_re eq_refl purchase_re_anchored).
  rewrite lines_app, flat_map_app. reflexivity.
Qed.

(** ** The answers *)


Lemma split_from_nil s : forall word,
  split_from word s = [] <-> word = [] /\ forallb is_space s = true.
Proof.
  induction s as [|c s IH]; intros word; cbn [split_from forallb].
  - destruct word; split; try tauto; try discriminate.
    intros [E _]; discriminate.
  - destruct (is_space c) eqn:Ec; cbn [andb].
    + destruct word as [|x word]; cbn [app].
      * rewrite (IH []). tauto.
      * split; [discriminate | intros [E _]; discriminate].
    + rewrite (IH (c :: word)). split; [intros [E _]; discriminate|].
      intros [_ E]; discriminate.
Qed.



(** ** The baskets *)

Lemma get_None_keys {V : Type} (d : dict V) k :
  get d k = None <-> ~ In k (map fst d).
Proof.
  induction d as [|[k0 v0] d IH]; simpl.
  - tauto.
  - destruct (pystr_eqb k0 k) eqn:E.
    + apply pystr_eqb_eq in E. subst k0. split; [discriminate | tauto].
    + rewrite IH. split; [|tauto].
      intros H [H1|H1]; [|tauto].
      subst k0. rewrite pystr_eqb_refl in E. discriminate.
Qed.

Lemma keys_set {V : Type} (d : dict V) k v :
  map fst (set d k v) =
  match get d k with
  | Some _ => map fst d
  | None => map fst d ++ [k]
  end.
Proof.
  induction d as [|[k0 v0] d IH]; simpl; [reflexivity|].
  destruct (pystr_eqb k0 k) eqn:E; simpl; [reflexivity|].
  rewrite IH. destruct (get d k); reflexivity.
Qed.

Lemma In_set {V : Type} (d : dict V) k v k' v' :
  In (k', v') (set d k v) -> (k', v') = (k, v) \/ In (k', v') d.
Proof.
  induction d as [|[k0 v0] d IH]; simpl.
  - intros [H|[]]; left; symmetry; exact H.
  - destruct (pystr_eqb k0 k) eqn:E; simpl.
    + apply pystr_eqb_eq in E. subst k0.
      intros [H|H]; [left; symmetry; exact H | right; right; exact H].
    + intros [H|H]; [right; left; exact H|].
      destruct (IH H) as [H1|H1]; [left; exact H1 | right; right; exact H1].
Qed.

Lemma keys_record b f c :
  map fst (record b f c) =
  match get b f with
  | Some _ => map fst b
  | None => map fst b ++ [f]
  end.
Proof.
  unfold record. destruct (get b f) eqn:E; rewrite keys_set, E; reflexivity.
Qed.

(** X8: [record] is a lookup-and-append: the flatmate gets the share at
    the end of what they had, nothing if they were not there; the other
    flatmates keep what they had; and the flatmates stay in their order,
    a new one coming last. *)
Theorem record_then_get b f c :
  get (record b f c) f =
    Some (match get b f with Some l => l | None => [] end ++ [c]) /\
  (forall k, k <> f -> get (record b f c) k = get b k) /\
  map fst (record b f c) =
    match get b f with
    | Some _ => map fst b
    | None => map fst b ++ [f]
    end.
Proof.
  split; [|split].
  - rewrite get_record, pystr_eqb_refl. reflexivity.
  - intros k Hk. rewrite get_record.
    destruct (pystr_eqb f k) eqn:E; [|reflexivity].
    apply pystr_eqb_eq in E. congruence.
  - apply keys_record.
Qed.

Lemma NoDup_snoc {A : Type} (l : list A) x :
  NoDup l -> ~ In x l -> NoDup (l ++ [x]).
Proof.
  intros Hl Hx.
  apply (Permutation_NoDup (Permutation_cons_append l x)).
  constructor; assumption.
Qed.

Lemma tidy_record b f c : tidy b -> tidy (record b f c).
Proof.
  intros [Hk Hv]. split.
  - rewrite keys_record. destruct (get b f) eqn:E; [exact Hk|].
    apply NoDup_snoc; [exact Hk | apply get_None_keys; exact E].
  - intros k l. unfold record.
    destruct (get b f) as [shares|]; intros H; apply In_set in H;
      destruct H as [H|H]; try (apply (Hv k l H)); inversion H.
    + destruct shares; discriminate.
    + discriminate.
Qed.

Lemma tidy_fold share names : forall b,
  tidy b -> tidy (fold_left (fun b flatmate => record b flatmate share) names b).
Proof.
  induction names as [|n names IH]; intros b Hb; simpl; [exact Hb|].
  apply IH. apply tidy_record. exact Hb.
Qed.

Section Loop.

Variable ask : nat -> Purchase -> result pystr.

Lemma assign_step_Ok st purchase st' :
  assign_step ask st purchase = Ok st' ->
  (is_zero (price purchase) = true /\ st' = st) \/
  (is_zero (price purchase) = false /\
   exists share answer,
     unit_cost purchase = Ok share /\
     ask (List.length (asked st)) purchase = Ok answer /\
     st' = Progress (record_all (baskets st)
                       (map (fun f => (f, share)) (split answer)))
                    (asked st ++ [purchase])).
Proof.
  unfold assign_step, assign_purchase.
  destruct (is_zero (price purchase)).
  - intros H; inversion H; auto.
  - destruct (unit_cost purchase) as [share|]; cbn [bind]; [|discriminate].
    destruct (ask _ purchase) as [answer|]; cbn [bind]; [|discriminate].
    intros H; inversion H. right. split; [reflexivity|].
    exists share, answer. rewrite fold_record_all. auto.
Qed.

Lemma tidy_record_all calls : forall b, tidy b -> tidy (record_all b calls).
Proof.
  unfold record_all.
  induction calls as [|[f c] calls IH]; intros b Hb; simpl; [exact Hb|].
  apply IH. apply tidy_record. exact Hb.
Qed.

Lemma assign_step_tidy st purchase st' :
  assign_step ask st purchase = Ok st' ->
  tidy (baskets st) -> tidy (baskets st').
Proof.
  intros H Ht. apply assign_step_Ok in H.
  destruct H as [[_ ->]|[_ (share & answer & _ & _ & ->)]]; [exact Ht|].
  apply tidy_record_all. exact Ht.
Qed.

Lemma assign_all_tidy purchases : forall st0 st exc,
  assign_all ask st0 purchases = (st, exc) ->
  tidy (baskets st0) -> tidy (baskets st).
Proof.
  induction purchases as [|p ps IH]; intros st0 st exc H Ht; simpl in H.
  - inversion H; subst; exact Ht.
  - destruct (assign_step ask st0 p) as [st1|e] eqn:E.
    + apply (IH _ _ _ H). apply (assign_step_tidy _ _ E Ht).
    + inversion H; subst; exact Ht.
Qed.

Lemma assign_step_grows st purchase st' f l :
  assign_step ask st purchase = Ok st' ->
  get (baskets st) f = Some l ->
  exists more, get (baskets st') f = Some (l ++ more).
Proof.
  intros H Hg. apply assign_step_Ok in H.
  destruct H as [[_ ->]|[_ (share & answer & _ & _ & ->)]].
  - exists []. rewrite app_nil_r. exact Hg.
  - cbn [baskets]. rewrite get_record_all, Hg.
    destruct (shares_of f _) as [|x more]; simpl.
    + exists []. rewrite app_nil_r. reflexivity.
    + exists (x :: more). reflexivity.
Qed.

Lemma assign_all_grows purchases : forall st0 st exc f l,
  assign_all ask st0 purchases = (st, exc) ->
  get (baskets st0) f = Some l ->
  exists more, get (baskets st) f = Some (l ++ more).
Proof.
  induction purchases as [|p ps IH]; intros st0 st exc f l H Hg; simpl in H.
  - inversion H; subst. exists []. rewrite app_nil_r. exact Hg.
  - destruct (assign_step ask st0 p) as [st1|e] eqn:E.
    + destruct (assign_step_grows _ _ f E Hg) as [more1 H1].
      destruct (IH _ _ _ _ _ H H1) as [more2 H2].
      exists (more1 ++ more2). rewrite app_assoc. exact H2.
    + inversion H; subst. exists []. rewrite app_nil_r. exact Hg.
Qed.

Lemma assign_all_app ps1 ps2 : forall st,
  assign_all ask st (ps1 ++ ps2) =
  match assign_all ask st ps1 with
  | (st1, None) => assign_all ask st1 ps2
  | stopped => stopped
  end.
Proof.
  induction ps1 as [|p ps1 IH]; intros st; simpl.
  - reflexivity.
  - destruct (assign_step ask st p) as [st1|e]; [apply IH | reflexivity].
Qed.

Lemma assign_all_asked purchases : forall st0 st exc,
  assign_all ask st0 purchases = (st, exc) ->
  exists done rest,
    purchases = done ++ rest /\
    asked st = asked st0 ++ filter costs_something done /\
    (exc = None -> rest = []).
Proof.
  induction purchases as [|p ps IH]; intros st0 st exc H; simpl in H.
  - inversion H; subst. exists [], []. cbn [filter app].
    rewrite app_nil_r. auto.
  - destruct (assign_step ask st0 p) as [st1|e] eqn:E.
    + destruct (IH _ _ _ H) as (done & rest & Hps & Ha & Hr).
      exists (p :: done), rest. split; [rewrite Hps; reflexivity|].
      split; [|exact Hr].
      rewrite Ha. cbn [filter]. unfold costs_something at 2.
      apply assign_step_Ok in E.
      destruct E as [[Hz ->]|[Hz (share & answer & _ & _ & ->)]];
        rewrite Hz; cbn [negb asked].
      * reflexivity.
      * rewrite <- app_assoc. reflexivity.
    + inversion H; subst. exists [], (p :: ps). cbn [filter app].
      rewrite app_nil_r. repeat split; auto. discriminate.
Qed.

End Loop.

(** ** The loop of [main] *)

(** X9: when the answer for a purchase is made of blanks only, the
    purchase is asked about and assigned to nobody: the baskets stay as
    they were, and its cost is in nobody's bill. *)
Theorem blank_answer_assigns_nobody
    (ask : nat -> Purchase -> result pystr) st purchase share answer
    (Hprice : is_zero (price purchase) = false)
    (Hshare : unit_cost purchase = Ok share)
    (Hanswer : ask (List.length (asked st)) purchase = Ok answer)
    (Hblank : forallb is_space answer = true) :
  assign_step ask st purchase =
  Ok (Progress (baskets st) (asked st ++ [purchase])).
Proof.
  unfold assign_step, assign_purchase.
  rewrite Hprice, Hshare. cbn [bind]. rewrite Hanswer. cbn [bind].
  unfold split.
  rewrite (proj2 (split_from_nil answer []) (conj eq_refl Hblank)).
  reflexivity.
Qed.

Lemma blank_answer_assigns_nobody_witness :
  assign_step blank_session start bananas = Ok (Progress [] [bananas]).
Proof.
  apply (@blank_answer_assigns_nobody blank_session start bananas
           (cents 50) (u "  ")).
  - reflexivity.
  - vm_compute. reflexivity.
  - reflexivity.
  - reflexivity.
Defined.

(** X10: whatever the purchases and the answers, and whether the loop
    ends or is stopped by an exception, the baskets it has built have one
    entry for a flatmate and no entry without a share: every total of the
    bill is the sum of one share at least. *)
Theorem baskets_stay_tidy
    (ask : nat -> Purchase -> result pystr) purchases st exc
    (Hrun : assign_all ask start purchases = (st, exc)) :
  NoDup (map fst (baskets st)) /\
  (forall f l, In (f, l) (baskets st) -> l <> []) /\
  NoDup (map fst (divide_order_bill (baskets st))).
Proof.
  assert (Ht : tidy (baskets st)).
  { apply (@assign_all_tidy ask purchases start st exc Hrun).
    split; [constructor | intros f l []]. }
  destruct Ht as [Hk Hv]. split; [exact Hk|]. split; [exact Hv|].
  unfold divide_order_bill. rewrite map_map.
  erewrite map_ext; [exact Hk|]. intros [f l]; reflexivity.
Qed.

Lemma baskets_stay_tidy_witness :
  NoDup (map fst [(u "Alice", [cents 50]); (u "Bob", [cents 50])]) /\
  (forall f l, In (f, l) [(u "Alice", [cents 50]); (u "Bob", [cents 50])] ->
               l <> []) /\
  NoDup (map fst (divide_order_bill
                    [(u "Alice", [cents 50]); (u "Bob", [cents 50])])).
Proof.
  apply (@baskets_stay_tidy cancelled_session
           [bananas; bread; delivery_item (cents 300)]
           (Progress [(u "Alice", [cents 50]); (u "Bob", [cents 50])]
                     [bananas])
           (Some KeyboardInterrupt)).
  vm_compute. reflexivity.
Defined.

(** X11: the loop only ever adds shares at the end of a basket: what a
    flatmate had at some point is still there, in the same order, at the
    start of what they have later, also when the loop is stopped by an
    exception. *)
Theorem shares_are_never_lost
    (ask : nat -> Purchase -> result pystr) purchases st0 st exc f l
    (Hrun : assign_all ask st0 purchases = (st, exc))
    (Hhad : get (baskets st0) f = Some l) :
  exists more, get (baskets st) f = Some (l ++ more).
Proof. apply (@assign_all_grows ask purchases st0 st exc f l Hrun Hhad). Qed.

Lemma shares_are_never_lost_witness :
  exists more,
    get [(u "Alice", [cents 50; cents 200]); (u "Bob", [cents 50])] (u "Alice") =
    Some ([cents 50] ++ more).
Proof.
  apply (@shares_are_never_lost (fun _ _ => Ok (u "Alice")) [bread]
           (Progress [(u "Alice", [cents 50]); (u "Bob", [cents 50])] [bananas])
           (Progress [(u "Alice", [cents 50; cents 200]); (u "Bob", [cents 50])]
                     [bananas; bread])
           None (u "Alice") [cents 50]).
  - vm_compute. reflexivity.
  - reflexivity.
Defined.

(** X12: the purchases asked about are the purchases that cost
    something, each once and in the order of the receipt: all of them
    when the loop ends, those of the start of the receipt when it is
    stopped. *)
Theorem costly_purchases_are_asked_in_order
    (ask : nat -> Purchase -> result pystr) purchases st exc
    (Hrun : assign_all ask start purchases = (st, exc)) :
  (exc = None -> asked st = filter costs_something purchases) /\
  (exists done rest,
     purchases = done ++ rest /\ asked st = filter costs_something done).
Proof.
  destruct (@assign_all_asked ask purchases start st exc Hrun)
    as (done & rest & Hps & Ha & Hr).
  cbn [asked start app] in Ha. split.
  - intros He. specialize (Hr He). subst rest.
    rewrite app_nil_r in Hps. subst done. exact Ha.
  - exists done, rest. auto.
Qed.

Lemma costly_purchases_are_asked_in_order_witness :
  (@None exn = None ->
   [bananas; bread] = filter costs_something [bananas; free_sample; bread]) /\
  (exists done rest,
     [bananas; free_sample; bread] = done ++ rest /\
     [bananas; bread] = filter costs_something done).
Proof.
  apply (@costly_purchases_are_asked_in_order full_session
           [bananas; free_sample; bread]
           (Progress [(u "Alice", [cents 50; cents 200]); (u "Bob", [cents 50])]
                     [bananas; bread])
           None).
  vm_compute. reflexivity.
Defined.

(** X13: a run of the loop over two lists of purchases put end to end is
    the run over the first, followed from where it got to by the run over
    the second; when the first is stopped by an exception, the second is
    not started. *)
Theorem loop_over_joined_purchases
    (ask : nat -> Purchase -> result pystr) ps1 ps2 st :
  assign_all ask st (ps1 ++ ps2) =
  match assign_all ask st ps1 with
  | (st1, None) => assign_all ask st1 ps2
  | stopped => stopped
  end.
Proof. apply assign_all_app. Qed.

Lemma unit_cost_of_nothing purchase :
  quantity purchase = 0 -> unit_cost purchase = Raise ZeroDivisionError.
Proof. unfold unit_cost. intros ->. reflexivity. Qed.

(** X14: a purchase that costs something and whose quantity is zero
    stops [main] with a division by zero when its turn comes: the heading
    is all that was printed, no bill is shown for the purchases assigned
    before it, and the cursor is closed. *)
Theorem zero_quantity_stops_main
    (ask : nat -> Purchase -> result pystr) ifile info before purchase after st
    (Hparse : parse_receipt ifile = Ok (info, before ++ purchase :: after))
    (Hbefore : assign_all ask start before = (st, None))
    (Hprice : is_zero (price purchase) = false)
    (Hquantity : quantity purchase = 0) :
  main ask ifile = Outcome heading (Some ZeroDivisionError) true.
Proof.
  assert (Hrun : assign_all ask start (before ++ purchase :: after) =
                 (st, Some ZeroDivisionError)).
  { rewrite assign_all_app, Hbefore. simpl.
    unfold assign_step. rewrite Hprice.
    rewrite (unit_cost_of_nothing purchase Hquantity). reflexivity. }
  rewrite (main_unfold ask ifile Hparse Hrun). reflexivity.
Qed.

Lemma zero_quantity_stops_main_witness :
  main full_session receipt_zero_quantity =
  Outcome heading (Some ZeroDivisionError) true.
Proof.
  apply (@zero_quantity_stops_main full_session receipt_zero_quantity
           (OrderInfo (Datetime 1900 1 12) (cents 640)) [] carrier_bags
           [delivery_item (cents 300)] start).
  - vm_compute. reflexivity.
  - reflexivity.
  - reflexivity.
  - reflexivity.
Defined.

(** ** What stops the loop *)



Section Raising.

Variable ask : nat -> Purchase -> result pystr.



End Raising.



(** ** The order of the bill *)

Lemma keys_record_all calls : forall b,
  map fst (record_all b calls) =
  fold_left (fun ks f => if in_dec pystr_dec f ks then ks else ks ++ [f])
            (map fst calls) (map fst b).
Proof.
  unfold record_all.
  induction calls as [|[f c] calls IH]; intros b; simpl; [reflexivity|].
  rewrite IH, keys_record. f_equal.
  destruct (get b f) eqn:E; destruct (in_dec pystr_dec f (map fst b)) as [i|n];
    try reflexivity.
  - contradiction n. destruct (in_dec pystr_dec f (map fst b)) as [i|n'];
      [exact i|]. apply get_None_keys in n'. congruence.
  - apply get_None_keys in E. contradiction.
Qed.

Lemma keys_divide_order_bill b : map fst (divide_order_bill b) = map fst b.
Proof.
  induction b as [|[f l] b IH]; simpl; [reflexivity | rewrite IH; reflexivity].
Qed.

Lemma first_mentions names :
  fold_left (fun ks f => if in_dec pystr_dec f ks then ks else ks ++ [f])
            names [] =
  rev (nodup pystr_dec (rev names)).
Proof.
  induction names as [|f names IH] using rev_ind; [reflexivity|].
  rewrite fold_left_app, IH, rev_app_distr. cbn [rev app fold_left nodup].
  destruct (in_dec pystr_dec f (rev (nodup pystr_dec (rev names)))) as [i|n];
    destruct (in_dec pystr_dec f (rev names)) as [i'|n']; try reflexivity.
  - contradiction n'. apply in_rev in i. apply nodup_In in i. exact i.
  - contradiction n. apply in_rev. rewrite rev_involutive.
    apply nodup_In. exact i'.
Qed.

(** X17: the flatmates of the bill are those of the [record] calls, each
    once, in the order in which they were first named. *)
Theorem bill_follows_first_mentions calls :
  map fst (divide_order_bill (record_all [] calls)) =
  rev (nodup pystr_dec (rev (map fst calls))).
Proof.
  rewrite keys_divide_order_bill, keys_record_all. apply first_mentions.
Qed.

(** ** The description is the shortest one *)

(** X19: the description of the purchase of a line is the shortest one
    possible: however the line is cut into a quantity, a space, a
    description, a space, the pound sign and an amount, the quantity is
    the one found and the description starts with the one found. *)
Theorem description_is_the_shortest l q d a q' d' a' tail'
    (Hfound : line_purchase l = [[q; d; a]])
    (Hline : l = q' ++ u " " ++ d' ++ u " £" ++ a' ++ tail')
    (Hq' : is_quantity q' = true)
    (Hd' : d' <> [])
    (Hdot : forallb is_dot d' = true)
    (Ha' : is_amount a' = true) :
  q' = q /\ exists more, d' = d ++ more.
Proof.
  apply (@found_description_is_shortest l q d a q' d' a' tail');
    assumption.
Qed.

Lemma description_is_the_shortest_witness :
  u "2" = u "2" /\ exists more, u "Coke £1.00 off" = u "Coke" ++ more.
Proof.
  apply (@description_is_the_shortest (u "2 Coke £1.00 off £0.50")
           (u "2") (u "Coke") (u "1.00")
           (u "2") (u "Coke £1.00 off") (u "0.50") []).
  - vm_compute. reflexivity.
  - vm_compute. reflexivity.
  - reflexivity.
  - discriminate.
  - reflexivity.
  - reflexivity.
Defined.

(** ** Single units *)

Lemma amount_by_one c :
  0 <= c <= 9999 -> fdiv (cents c) (float_of_Z 1) = cents c.
Proof.
  intros Hc.
  assert (H : forallb (fun n =>
                if float_eq_dec (fdiv (cents (Z.of_nat n)) (float_of_Z 1))
                                (cents (Z.of_nat n))
                then true else false) (seq 0 (Z.to_nat 10000)) = true)
    by (vm_compute; reflexivity).
  rewrite forallb_forall in H. specialize (H (Z.to_nat c)).
  rewrite Z2Nat.id in H by lia.
  destruct (float_eq_dec (fdiv (cents c) (float_of_Z 1)) (cents c)) as [E|E];
    [exact E|].
  discriminate H. apply in_seq. lia.
Qed.

(** X20: a purchase of one unit is charged at its price, without any
    rounding, for every price that a line or the delivery can have: who
    is named for the delivery is charged the delivery cost as read. *)
Theorem single_unit_costs_its_price purchase c
    (Hquantity : quantity purchase = 1)
    (Hprice : price purchase = cents c)
    (Hrange : 0 <= c <= 9999) :
  unit_cost purchase = Ok (price purchase).
Proof.
  unfold unit_cost. rewrite Hquantity, Hprice.
  change (float_of_int 1) with (Ok (float_of_Z 1)). cbn [bind].
  change (is_zero (float_of_Z 1)) with false. cbn iota.
  rewrite (amount_by_one Hrange). reflexivity.
Qed.

Lemma single_unit_costs_its_price_witness :
  unit_cost (delivery_item (cents 300)) = Ok (price (delivery_item (cents 300))).
Proof.
  apply (@single_unit_costs_its_price (delivery_item (cents 300)) 300).
  - reflexivity.
  - reflexivity.
  - lia.
Defined.

(** X21: the line of the delivery date is never taken for the delivery
    cost: the pattern of the cost does not match where [Delivery date]
    is written, whatever comes before and after. *)
Theorem date_line_is_not_a_cost prev x :
  matches delivery_cost_re prev (u "Delivery date" ++ x) = [].
Proof. reflexivity. Qed.
